(** * TruffleConfig.js: the network configuration builder

    A shallow embedding of [packages/common/src/TruffleConfig.js].

    - [process.env] (after [require("dotenv").config()] has run) is a finite
      map from variable names to strings: an absent variable reads as
      [undefined], a present one always reads as a string.
    - A string is kept as its UTF-8 bytes.  Emptiness, equality,
      concatenation and splitting at ["/"] read the same on the bytes as on
      the characters; [parseInt] decodes the white space it skips.
    - A JavaScript object literal is a finite map from property names to
      values; a property set to [undefined] is present in the map.
    - The module body is evaluated top to bottom and either completes or
      throws; the only mutable binding, [singletonProvider], is threaded as
      explicit state through the provider factories. *)

From Stdlib Require Import ZArith Ascii String.
From stdpp Require Import base option list strings gmap fin_maps.

Set Warnings "-register-all".

Local Open Scope string_scope.
Local Open Scope Z_scope.

(** ** Values *)

Module JS.

(** The numbers the module handles: [NaN], an infinity, or a double whose
    value is an integer. *)
Inductive number :=
| NaN
| Infinity (negative : bool)
| Int (z : Z).

(** Closures are kept as the code they run and the variables of the
    enclosing call they capture; [V] is the type of captured values. *)
Inductive closure (V : Type) :=
| gckms_provider
| privatekey_provider
| mnemonic_provider
| ledger_provider (networkId : V)
| ledger_legacy_provider (networkId : V)
| metamask_provider.

Arguments gckms_provider {V}.
Arguments privatekey_provider {V}.
Arguments mnemonic_provider {V}.
Arguments ledger_provider {V} networkId.
Arguments ledger_legacy_provider {V} networkId.
Arguments metamask_provider {V}.

Inductive value :=
| VUndefined
| VNull
| VBoolean (b : bool)
| VNumber (n : number)
| VString (s : string)
| VFunction (f : closure value).

(** [x ? a : b] and [x || y] on a value read from [process.env]:
    [undefined] and the empty string are falsy, any other string truthy. *)
Definition truthy (x : option string) : bool :=
  match x with
  | None => false
  | Some "" => false
  | Some _ => true
  end.

(** [x ? x : d] for [x] read from [process.env]. *)
Definition or_default (x : option string) (d : string) : string :=
  match x with
  | Some s => if truthy x then s else d
  | None => d
  end.

(** What evaluating a statement list ends in. *)
Inductive error :=
| ReferenceError (identifier : string)
| CollaboratorError (constructor : string).

Inductive completion (A : Type) :=
| Normal (a : A)
| Throw (e : error).

Arguments Normal {A} a.
Arguments Throw {A} e.

(** *** [parseInt(string)], called without a radix

    Leading white space is skipped, one sign is read, a [0x] or [0X]
    prefix selects radix 16 (radix 10 otherwise), and the longest run of
    digits of that radix is the numeral; with no digit the result is
    [NaN].  Whatever follows the numeral is ignored.  The result is the
    double nearest to the numeral's value. *)

(** TAB, LF, VT, FF, CR and SP. *)
Definition is_white_space (a : Ascii.ascii) : bool :=
  let n := Z.of_N (Ascii.N_of_ascii a) in
  ((9 <=? n) && (n <=? 13)) || (n =? 32).

(** Number of bytes of the white space character at the head of [s], 0 when
    there is none.  Beyond ASCII the white space characters are U+00A0,
    U+1680, U+2000 to U+200A, U+2028, U+2029, U+202F, U+205F, U+3000 and
    U+FEFF, here in UTF-8. *)
Definition white_space_width (s : string) : nat :=
  match s with
  | EmptyString => 0%nat
  | String a r =>
      let n := Z.of_N (Ascii.N_of_ascii a) in
      if n <? 128 then (if is_white_space a then 1%nat else 0%nat)
      else
        match r with
        | EmptyString => 0%nat
        | String b r' =>
            let m := Z.of_N (Ascii.N_of_ascii b) in
            if (n =? 194) && (m =? 160) then 2%nat
            else
              match r' with
              | EmptyString => 0%nat
              | String c _ =>
                  let k := Z.of_N (Ascii.N_of_ascii c) in
                  if (n =? 225) && (m =? 154) && (k =? 128) then 3%nat
                  else if (n =? 226) && (m =? 128)
                          && (((128 <=? k) && (k <=? 138))
                              || (k =? 168) || (k =? 169) || (k =? 175))
                  then 3%nat
                  else if (n =? 226) && (m =? 129) && (k =? 159) then 3%nat
                  else if (n =? 227) && (m =? 128) && (k =? 128) then 3%nat
                  else if (n =? 239) && (m =? 187) && (k =? 191) then 3%nat
                  else 0%nat
              end
        end
  end.

(** [skip] counts the bytes still to drop of the character being skipped. *)
Fixpoint trim_start_go (skip : nat) (s : string) : string :=
  match s with
  | EmptyString => s
  | String _ r =>
      match skip with
      | S k => trim_start_go k r
      | O =>
          match white_space_width s with
          | O => s
          | S k => trim_start_go k r
          end
      end
  end.

Definition trim_start (s : string) : string := trim_start_go 0 s.

(** The double nearest to the integer [z], ties to the even significand,
    infinite from 2^1024 on.  Below 2^53 every integer is a double. *)
Definition round_to_double (z : Z) : number :=
  let m := Z.abs z in
  if m <? 2 ^ 53 then Int z
  else
    let e := Z.log2 m - 52 in
    let q := m / 2 ^ e in
    let r := m mod 2 ^ e in
    let half := 2 ^ (e - 1) in
    let q' := if (half <? r) || ((r =? half) && Z.odd q) then q + 1 else q in
    let v := q' * 2 ^ e in
    if 2 ^ 1024 <=? v then Infinity (z <? 0) else Int (Z.sgn z * v).

Definition digit_value (radix : Z) (a : Ascii.ascii) : option Z :=
  let n := Z.of_N (Ascii.N_of_ascii a) in
  let d :=
    if (48 <=? n) && (n <=? 57) then n - 48
    else if (97 <=? n) && (n <=? 122) then n - 97 + 10
    else if (65 <=? n) && (n <=? 90) then n - 65 + 10
    else radix in
  if d <? radix then Some d else None.

(** The numeral at the head of [s]; [acc] is [None] until a digit is read. *)
Fixpoint parse_digits (radix : Z) (s : string) (acc : option Z) : option Z :=
  match s with
  | String a r =>
      match digit_value radix a with
      | Some d => parse_digits radix r (Some (radix * default 0 acc + d))
      | None => acc
      end
  | EmptyString => acc
  end.

Definition parseInt (input : string) : number :=
  let str := trim_start input in
  let '(sign, str) :=
    match str with
    | String "-"%char r => (-1, r)
    | String "+"%char r => (1, r)
    | _ => (1, str)
    end in
  let '(R, str) :=
    match str with
    | String "0"%char (String "x"%char r)
    | String "0"%char (String "X"%char r) => (16, r)
    | _ => (10, str)
    end in
  match parse_digits R str None with
  | None => NaN
  | Some mathInt => round_to_double (sign * mathInt)
  end.

Definition bind {A B} (c : completion A) (k : A -> completion B) : completion B :=
  match c with
  | Normal a => k a
  | Throw e => Throw e
  end.

End JS.

Import JS.

Notation "x <- c ;;; k" := (JS.bind c (fun x => k))
  (at level 100, c at next level, right associativity).

Abbreviation environment := (gmap string string).
Abbreviation object := (gmap string value).

(** ** Credential resolution (lines 17-31) *)

Definition fallback_mnemonic : string :=
  "candy maple cake sugar pudding cream honey rich smooth crumble sweet treat".
Definition fallback_privateKey : string :=
  "0x348ce564d427a3311b6536bbcff9390d69395b06ed6c486954e971d960fe8709".
Definition fallback_infuraApiKey : string :=
  "e34138b2db5b496ab5cc52319d2f0299".

Section Credentials.
Variable env : environment.

Definition mnemonic : string :=
  or_default (env !! "MNEMONIC") fallback_mnemonic.

Definition privateKey : string :=
  or_default (env !! "PRIVATE_KEY") fallback_privateKey.

Definition infuraApiKey : string :=
  or_default (env !! "INFURA_API_KEY") fallback_infuraApiKey.

Definition customNodeUrl : option string := env !! "CUSTOM_NODE_URL".

Definition keyOffset : number :=
  match env !! "KEY_OFFSET" with
  | Some s => if truthy (Some s) then parseInt s else Int 0
  | None => Int 0
  end.

Definition numKeys : number :=
  match env !! "NUM_KEYS" with
  | Some s => if truthy (Some s) then parseInt s else Int 2
  | None => Int 2
  end.
End Credentials.

(** ** Default options (lines 34-36) *)

Definition gasPx : Z := 20000000000.
Definition gas : value := VUndefined.

(** ** [nodeUrl] (line 39)

    [customNodeUrl || `wss://${name}.infura.io/ws/v3/${infuraApiKey}`].
    The right operand is evaluated only when [customNodeUrl] is falsy.  It
    reads the identifier [name], which no declaration of the module scope
    binds (the [name] of line 44 is a parameter of [addPublicNetwork], the
    one of line 150 is local to the loop), so the lookup goes to the global
    scope: [global_name] is the string form of what that scope binds [name]
    to, [None] where it binds nothing, as in Node.js. *)
Definition nodeUrl (global_name : option string) (env : environment)
  : completion string :=
  if truthy (customNodeUrl env) then Normal (default "" (customNodeUrl env))
  else
    match global_name with
    | Some name =>
        Normal ("wss://" +:+ name +:+ ".infura.io/ws/v3/" +:+ infuraApiKey env)
    | None => Throw (ReferenceError "name")
    end.

(** The global scope of a Node.js process: no binding for [name]. *)
Definition node_global_name : option string := None.

(** ** [addPublicNetwork] (lines 44-119) *)

Definition public_options (networkId : value) : object :=
  <["networkCheckTimeout" := VNumber (Int 10000)]>
  (<["network_id" := networkId]>
  (<["gas" := gas]>
  (<["gasPrice" := VNumber (Int gasPx)]> ∅))).

(** [{ ...options, provider: f }] *)
Definition with_provider (options : object) (f : closure value) : object :=
  <["provider" := VFunction f]> options.

Definition addPublicNetwork (networks : gmap string object)
    (name : string) (networkId : value) : gmap string object :=
  let options := public_options networkId in
  let networks :=
    <[name +:+ "_gckms" := with_provider options gckms_provider]> networks in
  let networks :=
    <[name +:+ "_privatekey" := with_provider options privatekey_provider]> networks in
  let networks :=
    <[name +:+ "_mnemonic" := with_provider options mnemonic_provider]> networks in
  let networks :=
    <[name +:+ "_ledger" := with_provider options (ledger_provider networkId)]> networks in
  let networks :=
    <[name +:+ "_ledger_legacy" :=
        with_provider options (ledger_legacy_provider networkId)]> networks in
  networks.

(** ** [addLocalNetwork] (lines 124-145) *)

Definition local_defaultOptions : object :=
  <["host" := VString "127.0.0.1"]>
  (<["network_id" := VString "*"]>
  (<["port" := VNumber (Int 9545)]>
  (<["gas" := gas]> ∅))).

(** [{ ...defaultOptions, ...customOptions }]: the properties of the second
    object are copied after those of the first, so they win; spreading
    [undefined] (an omitted argument) copies nothing. *)
Definition spread2 (first : object) (second : option object) : object :=
  default ∅ second ∪ first.

Definition addLocalNetwork (env : environment) (networks : gmap string object)
    (name : string) (customOptions : option object) : gmap string object :=
  let networks := <[name := spread2 local_defaultOptions customOptions]> networks in
  let networks :=
    match env !! "LOCALHOST" with
    | Some h => alter (insert "host" (VString h)) name networks
    | None => networks
    end in
  let networks :=
    match env !! "LOCALPORT" with
    | Some p => alter (insert "port" (VString p)) name networks
    | None => networks
    end in
  networks.

(** The entry [addLocalNetwork] leaves under [name]: the merged object with
    the two assignments of lines 138-144 applied to it. *)
Definition local_entry (env : environment) (customOptions : option object)
  : object :=
  let entry := spread2 local_defaultOptions customOptions in
  let entry :=
    match env !! "LOCALHOST" with
    | Some h => <["host" := VString h]> entry
    | None => entry
    end in
  match env !! "LOCALPORT" with
  | Some p => <["port" := VString p]> entry
  | None => entry
  end.

(** ** Module-level registration (lines 147-175)

    [PublicNetworks] is the table of [./PublicNetworks.js], given as the list
    [Object.entries] makes of it: pairs of a chain id (a property name, so a
    string) and the [name] field of its record. *)

Definition ci_options : object :=
  <["port" := VNumber (Int 8545)]> (<["network_id" := VNumber (Int 1234)]> ∅).

Definition metamask_options : object :=
  <["networkCheckTimeout" := VNumber (Int 500000)]>
  (<["provider" := VFunction metamask_provider]> ∅).

Definition mainnet_fork_options : object :=
  <["port" := VNumber (Int 1235)]> (<["network_id" := VNumber (Int 1)]> ∅).

Definition networks (env : environment) (PublicNetworks : list (string * string))
  : gmap string object :=
  let networks : gmap string object := ∅ in
  let networks :=
    foldl (fun networks '(id, name) => addPublicNetwork networks name (VString id))
          networks PublicNetworks in
  let networks := addLocalNetwork env networks "ci" (Some ci_options) in
  let networks := addLocalNetwork env networks "develop" None in
  let networks := addLocalNetwork env networks "test" None in
  let networks := addLocalNetwork env networks "coverage" (Some ci_options) in
  let networks := addLocalNetwork env networks "metamask" (Some metamask_options) in
  let networks := addLocalNetwork env networks "mainnet-fork" (Some mainnet_fork_options) in
  networks.

(** ** The provider factories and [singletonProvider] (lines 32, 55-117, 167-172)

    Provider objects live in a heap of the process and are named by their
    address.  [new C(...)] of a collaborator class either throws or allocates
    a fresh object; the heap records which constructor was run with which
    arguments.  The classes are opaque: which constructions throw is a
    parameter, [constructor_throws]. *)

Record ledger_options := {
  ledger_networkId : value;
  accountsLength : number;
  accountsOffset : number;
  ledger_path : option string
}.

Inductive construction (GckmsEntry : Type) :=
| ManagedSecretProvider (config : list GckmsEntry) (provider : value)
    (offset : Z) (count : Z)
| HDWalletProvider_keys (keys : list string) (provider : value)
| HDWalletProvider_mnemonic (words : string) (provider : value)
    (offset : number) (count : number)
| LedgerWalletProvider (options : ledger_options) (provider : value)
| MetaMaskTruffleProvider.

Arguments ManagedSecretProvider {GckmsEntry}.
Arguments HDWalletProvider_keys {GckmsEntry}.
Arguments HDWalletProvider_mnemonic {GckmsEntry}.
Arguments LedgerWalletProvider {GckmsEntry}.
Arguments MetaMaskTruffleProvider {GckmsEntry}.

(** The state of a process that has loaded the module: the provider objects
    allocated so far and the module variable [singletonProvider], [None]
    while it is [undefined]. *)
Record process (GckmsEntry : Type) := {
  heap : list (construction GckmsEntry);
  singletonProvider : option nat
}.

Arguments heap {GckmsEntry}.
Arguments singletonProvider {GckmsEntry}.

Section Providers.
Context {GckmsEntry : Type}.
(** [GckmsConfig] of [./gckms/GckmsConfig.js]. *)
Variable GckmsConfig : list GckmsEntry.
Variable constructor_throws : construction GckmsEntry -> bool.
(** The module constants the closures read. *)
Variable env : environment.
Variable url : string.

Definition class_name (c : construction GckmsEntry) : string :=
  match c with
  | ManagedSecretProvider _ _ _ _ => "ManagedSecretProvider"
  | HDWalletProvider_keys _ _ | HDWalletProvider_mnemonic _ _ _ _ =>
      "HDWalletProvider"
  | LedgerWalletProvider _ _ => "LedgerWalletProvider"
  | MetaMaskTruffleProvider => "MetaMaskTruffleProvider"
  end.

Definition legacyLedgerOptions (networkId : value) : ledger_options :=
  {| ledger_networkId := networkId;
     accountsLength := numKeys env;
     accountsOffset := keyOffset env;
     ledger_path := None |}.

Definition ledgerOptions (networkId : value) : ledger_options :=
  {| ledger_networkId := networkId;
     accountsLength := numKeys env;
     accountsOffset := keyOffset env;
     ledger_path := Some "44'/60'/0'/0/0" |}.

(** The parameter [provider = nodeUrl]: the default applies when the
    argument is omitted or [undefined]. *)
Definition provider_parameter (arg : value) : value :=
  match arg with
  | VUndefined => VString url
  | v => v
  end.

(** The [new] expression in the body of each factory. *)
Definition construction_of (f : closure value) (arg : value)
  : construction GckmsEntry :=
  match f with
  | gckms_provider =>
      ManagedSecretProvider GckmsConfig (provider_parameter arg) 0
        (Z.of_nat (length GckmsConfig))
  | privatekey_provider =>
      HDWalletProvider_keys [privateKey env] (provider_parameter arg)
  | mnemonic_provider =>
      HDWalletProvider_mnemonic (mnemonic env) (provider_parameter arg)
        (keyOffset env) (numKeys env)
  | ledger_provider networkId =>
      LedgerWalletProvider (ledgerOptions networkId) (provider_parameter arg)
  | ledger_legacy_provider networkId =>
      LedgerWalletProvider (legacyLedgerOptions networkId) (provider_parameter arg)
  | metamask_provider => MetaMaskTruffleProvider
  end.

Definition new (c : construction GckmsEntry) (s : process GckmsEntry)
  : completion (nat * process GckmsEntry) :=
  if constructor_throws c then Throw (CollaboratorError (class_name c))
  else Normal (length (heap s),
               {| heap := heap s ++ [c];
                  singletonProvider := singletonProvider s |}).

(** Calling a factory:
    [if (!singletonProvider) { singletonProvider = new ...; }
     return singletonProvider;]
    An object reference is truthy, [undefined] is falsy. *)
Definition call (f : closure value) (arg : value) (s : process GckmsEntry)
  : completion (nat * process GckmsEntry) :=
  match singletonProvider s with
  | Some p => Normal (p, s)
  | None =>
      r <- new (construction_of f arg) s ;;;
      Normal (r.1, {| heap := heap r.2; singletonProvider := Some r.1 |})
  end.

(** A run of factory calls, one after the other, with the references they
    return. *)
Fixpoint call_all (calls : list (closure value * value))
    (s : process GckmsEntry) : completion (list nat * process GckmsEntry) :=
  match calls with
  | [] => Normal ([], s)
  | (f, arg) :: rest =>
      r <- call f arg s ;;;
      rs <- call_all rest r.2 ;;;
      Normal (r.1 :: rs.1, rs.2)
  end.
End Providers.

(** A fresh process: nothing allocated, [singletonProvider] undefined. *)
Definition fresh_process {GckmsEntry : Type} : process GckmsEntry :=
  {| heap := []; singletonProvider := None |}.

(** ** [path.join] of the platform, POSIX flavour

    [require("path")] is Node's module, not code of this package; this is
    [path.posix.join] on strings.  The arguments that are not empty are
    joined with ["/"] and the result is normalised: empty and ["."] segments
    are dropped, a [".."] segment removes the segment before it (and is kept
    at the front of a relative path), a trailing separator is kept, the
    empty result reads ["."]. *)
Module path.

Fixpoint segments (s : string) : list string :=
  match s with
  | EmptyString => [EmptyString]
  | String a r =>
      if Ascii.eqb a "/" then EmptyString :: segments r
      else match segments r with
           | x :: xs => String a x :: xs
           | [] => [String a EmptyString]
           end
  end.

(** [res] is the stack of segments kept so far, last one first. *)
Fixpoint normalizeString (allowAboveRoot : bool) (segs res : list string)
  : list string :=
  match segs with
  | [] => reverse res
  | seg :: rest =>
      if String.eqb seg "" || String.eqb seg "." then
        normalizeString allowAboveRoot rest res
      else if String.eqb seg ".." then
        match res with
        | top :: below =>
            if String.eqb top ".." then
              normalizeString allowAboveRoot rest
                (if allowAboveRoot then ".." :: res else res)
            else normalizeString allowAboveRoot rest below
        | [] =>
            normalizeString allowAboveRoot rest
              (if allowAboveRoot then [".."] else [])
        end
      else normalizeString allowAboveRoot rest (seg :: res)
  end.

Fixpoint concat_with (sep : string) (l : list string) : string :=
  match l with
  | [] => ""
  | [x] => x
  | x :: rest => x +:+ sep +:+ concat_with sep rest
  end.

Fixpoint last_is_slash (s : string) : bool :=
  match s with
  | EmptyString => false
  | String a EmptyString => Ascii.eqb a "/"
  | String _ r => last_is_slash r
  end.

Definition normalize (p : string) : string :=
  if String.eqb p "" then "."
  else
    let isAbsolute := match p with String a _ => Ascii.eqb a "/" | _ => false end in
    let trailingSeparator := last_is_slash p in
    let p' := concat_with "/"
                (normalizeString (negb isAbsolute) (segments p) []) in
    if String.eqb p' "" then
      if isAbsolute then "/" else if trailingSeparator then "./" else "."
    else
      let p' := if trailingSeparator then p' +:+ "/" else p' in
      if isAbsolute then "/" +:+ p' else p'.

Definition join (args : list string) : string :=
  match filter (fun a => a ≠ "") args with
  | [] => "."
  | parts => normalize (concat_with "/" parts)
  end.

End path.

(** ** [getTruffleConfig] (lines 177-202) *)

Record optimizer_settings := { enabled : bool; runs : Z }.
Record solc_settings := { version : string; optimizer : optimizer_settings }.
Record mocha_settings := { enableTimeouts : bool; before_timeout : Z }.

Record configuration := {
  config_networks : gmap string object;
  plugins : list string;
  mocha : mocha_settings;
  compilers_solc : solc_settings;
  migrations_directory : string;
  contracts_directory : string;
  contracts_build_directory : string
}.

(** [module_networks] is the module variable [networks]; the argument is
    [None] when the caller passes nothing (or [undefined]), and the default
    ["./"] applies. *)
Definition getTruffleConfig (module_networks : gmap string object)
    (arg : option string) : configuration :=
  let truffleContextDir := default "./" arg in
  {| config_networks := module_networks;
     plugins := ["solidity-coverage"];
     mocha := {| enableTimeouts := false; before_timeout := 1800000 |};
     compilers_solc :=
       {| version := "0.6.12";
          optimizer := {| enabled := true; runs := 199 |} |};
     migrations_directory := path.join [truffleContextDir; "migrations"];
     contracts_directory := path.join [truffleContextDir; "contracts"];
     contracts_build_directory := path.join [truffleContextDir; "build/contracts"] |}.

(** ** Loading the module and building the configuration

    The module body in source order: the credentials (lines 17-31), which
    cannot throw; [nodeUrl] (line 39); the registration of the networks
    (lines 147-175).  What [require] gives back is the pair of exports. *)
Record exports := {
  exported_nodeUrl : string;
  exported_networks : gmap string object
}.

Definition load (global_name : option string) (env : environment)
    (PublicNetworks : list (string * string)) : completion exports :=
  url <- nodeUrl global_name env ;;;
  Normal {| exported_nodeUrl := url;
            exported_networks := networks env PublicNetworks |}.

(** Building the configuration: load the module, then call
    [getTruffleConfig] with the context directory. *)
Definition build (global_name : option string) (env : environment)
    (PublicNetworks : list (string * string)) (contextDirectory : option string)
  : completion configuration :=
  m <- load global_name env PublicNetworks ;;;
  Normal (getTruffleConfig (exported_networks m) contextDirectory).

(** ** Vocabulary of the specification *)

(** "An integer greater than or equal to [lo]". *)
Definition integer_at_least (lo : Z) (n : number) : Prop :=
  match n with
  | Int z => lo <= z
  | NaN | Infinity _ => False
  end.

Definition is_decimal_digit (a : Ascii.ascii) : bool :=
  let n := Z.of_N (Ascii.N_of_ascii a) in (48 <=? n) && (n <=? 57).

Fixpoint all_decimal_digits (s : string) : bool :=
  match s with
  | EmptyString => true
  | String a r => is_decimal_digit a && all_decimal_digits r
  end.

Fixpoint has_nonzero_digit (s : string) : bool :=
  match s with
  | EmptyString => false
  | String a r => negb (Ascii.eqb a "0") || has_nonzero_digit r
  end.

(** A decimal numeral of at most fifteen digits: below 2^53, so the number
    the engine holds is the numeral's value. *)
Definition decimal_numeral (s : string) : bool :=
  negb (String.eqb s "") && all_decimal_digits s
  && (Z.of_nat (String.length s) <=? 15).

(** Value of a run of decimal digits read after [acc]. *)
Fixpoint decimal_value (s : string) (acc : Z) : Z :=
  match s with
  | EmptyString => acc
  | String a r => decimal_value r (10 * acc + (Z.of_N (Ascii.N_of_ascii a) - 48))
  end.

(** The five suffixes of a public network and the factory each one gets. *)
Definition public_suffixes : list string :=
  ["_gckms"; "_privatekey"; "_mnemonic"; "_ledger"; "_ledger_legacy"].

Definition public_factories (networkId : value) : list (closure value) :=
  [gckms_provider; privatekey_provider; mnemonic_provider;
   ledger_provider networkId; ledger_legacy_provider networkId].

(** The base options of a public entry, as the specification lists them. *)
Definition has_base_options (networkId : value) (entry : object) : Prop :=
  entry !! "networkCheckTimeout" = Some (VNumber (Int 10000))
  ∧ entry !! "network_id" = Some networkId
  ∧ entry !! "gas" = Some VUndefined
  ∧ entry !! "gasPrice" = Some (VNumber (Int 20000000000)).

(** The defaults of a local entry, as the specification lists them. *)
Definition spec_local_default (k : string) : option value :=
  if String.eqb k "host" then Some (VString "127.0.0.1")
  else if String.eqb k "network_id" then Some (VString "*")
  else if String.eqb k "port" then Some (VNumber (Int 9545))
  else if String.eqb k "gas" then Some VUndefined
  else None.

(** Shallow merge of the defaults with the caller's overrides, the overrides
    winning on a key both have. *)
Definition spec_merge (customOptions : option object) (k : string) : option value :=
  match customOptions with
  | Some custom =>
      match custom !! k with
      | Some v => Some v
      | None => spec_local_default k
      end
  | None => spec_local_default k
  end.

(** The local networks the module registers, with the overrides of each. *)
Definition local_registrations : list (string * option object) :=
  [("ci", Some ci_options); ("develop", None); ("test", None);
   ("coverage", Some ci_options); ("metamask", Some metamask_options);
   ("mainnet-fork", Some mainnet_fork_options)].

(** The compiler settings of the source. *)
Definition spec_compilers : solc_settings :=
  {| version := "0.6.12"; optimizer := {| enabled := true; runs := 199 |} |}.

(** The keys [addPublicNetwork] writes for [name]. *)
Definition public_keys (name : string) : list string :=
  (λ sfx, name +:+ sfx) <$> public_suffixes.

(** The names under which the module registers local networks. *)
Definition local_names : list string := local_registrations.*1.

(** A process in which at most one provider object was ever constructed:
    nothing while the slot is undefined, one object, held by the slot,
    afterwards. *)
Definition at_most_one_provider {GckmsEntry : Type}
    (s : process GckmsEntry) : Prop :=
  match singletonProvider s with
  | None => heap s = []
  | Some p => p = 0%nat ∧ length (heap s) = 1%nat
  end.

(** A path segment with nothing to normalise: not empty, not ["."], not
    [".."], and without separator. *)
Fixpoint has_slash (s : string) : bool :=
  match s with
  | EmptyString => false
  | String a r => Ascii.eqb a "/" || has_slash r
  end.

Definition plain_segment (s : string) : bool :=
  negb (String.eqb s "") && negb (String.eqb s ".")
  && negb (String.eqb s "..") && negb (has_slash s).

(** The absolute path made of the given segments. *)
Definition absolute_path (segs : list string) : string :=
  "/" +:+ path.concat_with "/" segs.

(** ** Sample inputs *)

(** An environment whose KEY_OFFSET and NUM_KEYS are not positive numerals. *)
Definition malformed_keys_env : environment :=
  <["KEY_OFFSET" := "-1"]> (<["NUM_KEYS" := "many"]> ∅).

(** An environment with LOCALPORT=9999 (and a node URL). *)
Definition localport_env : environment :=
  <["LOCALPORT" := "9999"]> (<["CUSTOM_NODE_URL" := "http://localhost:8545"]> ∅).

(** An environment where every variable is present and empty. *)
Definition empty_values_env : environment :=
  <["LOCALHOST" := ""]> (<["LOCALPORT" := ""]> (<["MNEMONIC" := ""]>
  (<["PRIVATE_KEY" := ""]> (<["INFURA_API_KEY" := ""]> ∅)))).

(** An environment whose KEY_OFFSET and NUM_KEYS are decimal numerals. *)
Definition numeral_keys_env : environment :=
  <["KEY_OFFSET" := "3"]> (<["NUM_KEYS" := "10"]> ∅).

(** * Properties *)

(** ** Truthiness and credentials *)

Lemma truthy_None : truthy None = false.
Proof. reflexivity. Qed.

Lemma truthy_empty : truthy (Some "") = false.
Proof. reflexivity. Qed.

Lemma truthy_nonempty a s : truthy (Some (String a s)) = true.
Proof. reflexivity. Qed.

Lemma or_default_absent d : or_default None d = d.
Proof. reflexivity. Qed.

Lemma or_default_empty d : or_default (Some "") d = d.
Proof. reflexivity. Qed.

Lemma or_default_nonempty a s d : or_default (Some (String a s)) d = String a s.
Proof. reflexivity. Qed.

(** C4. With MNEMONIC, PRIVATE_KEY and INFURA_API_KEY all unset, the module
    resolves the mnemonic, the private key and the API key to the three
    fallback literals of the source. *)
Theorem credentials_fallback_when_unset (env : environment) :
  env !! "MNEMONIC" = None →
  env !! "PRIVATE_KEY" = None →
  env !! "INFURA_API_KEY" = None →
  mnemonic env
    = "candy maple cake sugar pudding cream honey rich smooth crumble sweet treat"
  ∧ privateKey env
    = "0x348ce564d427a3311b6536bbcff9390d69395b06ed6c486954e971d960fe8709"
  ∧ infuraApiKey env = "e34138b2db5b496ab5cc52319d2f0299".
Proof.
  intros Hm Hp Hi. unfold mnemonic, privateKey, infuraApiKey.
  rewrite Hm, Hp, Hi. repeat split; apply or_default_absent.
Qed.

Lemma credentials_fallback_when_unset_witness :
  mnemonic (∅ : environment)
    = "candy maple cake sugar pudding cream honey rich smooth crumble sweet treat"
  ∧ privateKey (∅ : environment)
    = "0x348ce564d427a3311b6536bbcff9390d69395b06ed6c486954e971d960fe8709"
  ∧ infuraApiKey (∅ : environment) = "e34138b2db5b496ab5cc52319d2f0299".
Proof.
  apply (credentials_fallback_when_unset ∅); reflexivity.
Defined.

(** ** [parseInt] on decimal numerals *)

Lemma digit_value_decimal a :
  is_decimal_digit a = true →
  digit_value 10 a = Some (Z.of_N (Ascii.N_of_ascii a) - 48)
  ∧ 0 <= Z.of_N (Ascii.N_of_ascii a) - 48 <= 9.
Proof.
  unfold is_decimal_digit, digit_value.
  intros [Hlo Hhi]%andb_true_iff. rewrite Hlo, Hhi. simpl.
  apply Z.leb_le in Hlo, Hhi.
  destruct (Z.ltb_spec (Z.of_N (Ascii.N_of_ascii a) - 48) 10); [split; [done | lia] | lia].
Qed.

Lemma parse_digits_decimal s acc :
  all_decimal_digits s = true →
  parse_digits 10 s (Some acc) = Some (decimal_value s acc).
Proof.
  revert acc. induction s as [|a r IH]; intros acc H; [done|].
  simpl in H. apply andb_true_iff in H as [Ha Hr].
  destruct (digit_value_decimal a Ha) as [Hd _].
  simpl. rewrite Hd. simpl. by apply IH.
Qed.

Lemma decimal_value_ge s acc :
  all_decimal_digits s = true → 0 <= acc → acc <= decimal_value s acc.
Proof.
  revert acc. induction s as [|a r IH]; intros acc H Hacc; simpl; [lia|].
  simpl in H. apply andb_true_iff in H as [Ha Hr].
  destruct (digit_value_decimal a Ha) as [_ Hrange].
  etrans; [|apply IH; [done | lia]]. lia.
Qed.

Lemma nonzero_digit_value a :
  is_decimal_digit a = true → Ascii.eqb a "0" = false →
  1 <= Z.of_N (Ascii.N_of_ascii a) - 48.
Proof.
  intros Ha Hz. destruct (digit_value_decimal a Ha) as [_ Hrange].
  destruct (decide (Z.of_N (Ascii.N_of_ascii a) = 48)) as [Heq|]; [|lia].
  apply Ascii.eqb_neq in Hz. destruct Hz.
  rewrite <- (Ascii.ascii_N_embedding a), <- (Ascii.ascii_N_embedding "0").
  f_equal. apply N2Z.inj. rewrite Heq. reflexivity.
Qed.

Lemma decimal_value_pos s acc :
  all_decimal_digits s = true → 0 <= acc → has_nonzero_digit s = true →
  1 <= decimal_value s acc.
Proof.
  revert acc. induction s as [|a r IH]; intros acc H Hacc Hnz; [done|].
  simpl in H, Hnz. apply andb_true_iff in H as [Ha Hr].
  destruct (digit_value_decimal a Ha) as [_ Hrange]. simpl.
  destruct (Ascii.eqb a "0") eqn:Hz; simpl in Hnz.
  - apply IH; [done | lia | done].
  - pose proof (nonzero_digit_value a Ha Hz).
    etrans; [|apply decimal_value_ge; [done | lia]]. lia.
Qed.

Lemma parse_digits_decimal_start s :
  s ≠ "" → all_decimal_digits s = true →
  parse_digits 10 s None = Some (decimal_value s 0).
Proof.
  destruct s as [|a r]; [done|]. intros _ H.
  simpl in H. apply andb_true_iff in H as [Ha Hr].
  destruct (digit_value_decimal a Ha) as [Hd _].
  simpl. rewrite Hd. simpl. by apply parse_digits_decimal.
Qed.

(** On an input that starts with a digit and not with [0x], [parseInt]
    reads no white space, no sign and no radix prefix. *)
Ltac parseInt_reads_radix_10 :=
  lazymatch goal with
  | |- parseInt ?s = _ =>
      change (parseInt s)
        with (match parse_digits 10 s None with
              | None => NaN
              | Some mathInt => round_to_double (1 * mathInt)
              end);
      rewrite parse_digits_decimal_start; [f_equal; lia | done | simpl; by repeat (apply andb_true_iff; split)]
  end.

Lemma parseInt_decimal s :
  s ≠ "" → all_decimal_digits s = true →
  parseInt s = round_to_double (decimal_value s 0).
Proof.
  destruct s as [|a r]; [done|]. intros _ H.
  simpl in H. apply andb_true_iff in H as [Ha Hr].
  destruct a as [[] [] [] [] [] [] [] []]; try discriminate Ha;
    try parseInt_reads_radix_10.
  destruct r as [|b r']; [reflexivity|].
  simpl in Hr. apply andb_true_iff in Hr as [Hb Hr'].
  destruct b as [[] [] [] [] [] [] [] []]; try discriminate Hb;
    parseInt_reads_radix_10.
Qed.

Lemma round_to_double_exact z : Z.abs z < 2 ^ 53 → round_to_double z = Int z.
Proof.
  intros H. unfold round_to_double.
  by destruct (Z.ltb_spec (Z.abs z) (2 ^ 53)); [|lia].
Qed.

Lemma decimal_value_lt s acc :
  all_decimal_digits s = true → 0 <= acc →
  decimal_value s acc < (acc + 1) * 10 ^ Z.of_nat (String.length s).
Proof.
  revert acc. induction s as [|a r IH]; intros acc H Hacc.
  - simpl. lia.
  - simpl in H. apply andb_true_iff in H as [Ha Hr].
    destruct (digit_value_decimal a Ha) as [_ Hrange].
    cbn [decimal_value String.length].
    rewrite Nat2Z.inj_succ, Z.pow_succ_r by lia.
    eapply Z.lt_le_trans; [apply IH; [done | lia]|].
    assert (0 < 10 ^ Z.of_nat (String.length r)) by (apply Z.pow_pos_nonneg; lia).
    nia.
Qed.

Lemma decimal_numeral_value s :
  decimal_numeral s = true →
  s ≠ "" ∧ all_decimal_digits s = true ∧ 0 <= decimal_value s 0 < 2 ^ 53.
Proof.
  unfold decimal_numeral.
  intros [[Hne Hd]%andb_true_iff Hlen%Z.leb_le]%andb_true_iff.
  apply negb_true_iff, String.eqb_neq in Hne.
  split; [done|]. split; [done|]. split; [by apply decimal_value_ge|].
  pose proof (decimal_value_lt s 0 Hd (Z.le_refl 0)) as Hlt.
  assert (10 ^ Z.of_nat (String.length s) <= 10 ^ 15)
    by (apply Z.pow_le_mono_r; lia).
  assert (10 ^ 15 < 2 ^ 53) by reflexivity. lia.
Qed.

Lemma parseInt_decimal_numeral s :
  decimal_numeral s = true →
  ∃ z, parseInt s = Int z ∧ z = decimal_value s 0 ∧ 0 <= z
       ∧ (has_nonzero_digit s = true → 1 <= z).
Proof.
  intros (Hne & Hd & Hrange)%decimal_numeral_value.
  exists (decimal_value s 0).
  split; [rewrite parseInt_decimal by done; apply round_to_double_exact; lia|].
  split; [done|]. split; [lia|]. intros. by apply decimal_value_pos.
Qed.

(** C9, as stated, fails: with KEY_OFFSET=-1 the key offset is -1, and with
    NUM_KEYS=many the number of keys is NaN. *)
Lemma keyOffset_numKeys_counterexample :
  keyOffset malformed_keys_env = Int (-1)
  ∧ numKeys malformed_keys_env = NaN
  ∧ ¬ (integer_at_least 0 (keyOffset malformed_keys_env)
       ∧ integer_at_least 1 (numKeys malformed_keys_env)).
Proof.
  split; [reflexivity|]. split; [reflexivity|].
  intros [H _]. vm_compute in H. by apply H.
Qed.

(** C9, amended. In every environment [keyOffset] is 0 when KEY_OFFSET is
    unset or empty and [parseInt] of it otherwise, and [numKeys] is 2 when
    NUM_KEYS is unset or empty and [parseInt] of it otherwise.  When
    KEY_OFFSET is unset, empty or a decimal numeral, [keyOffset] is an
    integer at least 0; when NUM_KEYS is unset, empty or a decimal numeral
    with a digit other than 0, [numKeys] is an integer at least 1. *)
Theorem keyOffset_numKeys_of_numerals (env : environment) :
  keyOffset env
    = (if truthy (env !! "KEY_OFFSET")
       then parseInt (default "" (env !! "KEY_OFFSET")) else Int 0)
  ∧ numKeys env
    = (if truthy (env !! "NUM_KEYS")
       then parseInt (default "" (env !! "NUM_KEYS")) else Int 2)
  ∧ ((∀ s, env !! "KEY_OFFSET" = Some s → s = "" ∨ decimal_numeral s = true) →
     integer_at_least 0 (keyOffset env))
  ∧ ((∀ s, env !! "NUM_KEYS" = Some s →
           s = "" ∨ (decimal_numeral s = true ∧ has_nonzero_digit s = true)) →
     integer_at_least 1 (numKeys env)).
Proof.
  unfold keyOffset, numKeys.
  split; [by destruct (env !! "KEY_OFFSET")|].
  split; [by destruct (env !! "NUM_KEYS")|].
  split.
  - intros Hoff. destruct (env !! "KEY_OFFSET") as [s|] eqn:E; [|simpl; lia].
    destruct (Hoff s eq_refl) as [->|Hs]; [simpl; lia|].
    destruct (parseInt_decimal_numeral s Hs) as (z & Hz & _ & Hge & _).
    destruct (truthy (Some s)); [rewrite Hz|]; simpl; lia.
  - intros Hnum. destruct (env !! "NUM_KEYS") as [s|] eqn:E; [|simpl; lia].
    destruct (Hnum s eq_refl) as [->|[Hs Hnz]]; [simpl; lia|].
    destruct (parseInt_decimal_numeral s Hs) as (z & Hz & _ & _ & Hge).
    destruct (truthy (Some s)); [rewrite Hz; simpl; by apply Hge | simpl; lia].
Qed.

Lemma keyOffset_numKeys_of_numerals_witness :
  keyOffset numeral_keys_env = Int 3
  ∧ numKeys numeral_keys_env = Int 10
  ∧ integer_at_least 0 (keyOffset numeral_keys_env)
  ∧ integer_at_least 1 (numKeys numeral_keys_env).
Proof.
  assert (H1 : ∀ s, numeral_keys_env !! "KEY_OFFSET" = Some s →
                    s = "" ∨ decimal_numeral s = true).
  { intros s Hs. vm_compute in Hs. injection Hs as <-. right. reflexivity. }
  assert (H2 : ∀ s, numeral_keys_env !! "NUM_KEYS" = Some s →
                    s = "" ∨ (decimal_numeral s = true ∧ has_nonzero_digit s = true)).
  { intros s Hs. vm_compute in Hs. injection Hs as <-. right. split; reflexivity. }
  destruct (keyOffset_numKeys_of_numerals numeral_keys_env)
    as (_ & _ & Hk & Hn).
  split; [reflexivity|]. split; [reflexivity|]. split; [exact (Hk H1) | exact (Hn H2)].
Defined.

(** ** [addPublicNetwork] *)

(** Distinct literals are not members of each other's lists. *)
Ltac not_in_literals :=
  rewrite ?not_elem_of_cons; repeat split;
  first [discriminate | apply not_elem_of_nil].

Ltac in_literals := simpl; rewrite ?elem_of_cons; auto 10.

Lemma suffixed_key_ne (name sfx1 sfx2 : string) :
  sfx1 ≠ sfx2 → name +:+ sfx1 ≠ name +:+ sfx2.
Proof. intros Hne Heq. apply Hne. by apply (inj (String.app name)). Qed.

Lemma public_keys_NoDup (name : string) :
  NoDup ((λ sfx, name +:+ sfx) <$> public_suffixes).
Proof.
  apply (NoDup_fmap_2 (String.app name)).
  unfold public_suffixes. repeat (apply NoDup_cons; split; [not_in_literals|]).
  apply NoDup_nil_2.
Qed.

Ltac lookup_public_entry :=
  unfold addPublicNetwork;
  repeat (rewrite lookup_insert_ne by (by apply suffixed_key_ne));
  apply lookup_insert_eq.

Lemma addPublicNetwork_lookup (nets : gmap string object) name networkId i sfx f :
  public_suffixes !! i = Some sfx →
  public_factories networkId !! i = Some f →
  addPublicNetwork nets name networkId !! (name +:+ sfx)
    = Some (with_provider (public_options networkId) f).
Proof.
  intros Hs Hf.
  destruct i as [|[|[|[|[|i]]]]]; simpl in Hs, Hf; simplify_eq;
    lookup_public_entry.
Qed.

Lemma addPublicNetwork_other (nets : gmap string object) name networkId k :
  k ∉ (λ sfx, name +:+ sfx) <$> public_suffixes →
  addPublicNetwork nets name networkId !! k = nets !! k.
Proof.
  intros Hk. unfold addPublicNetwork.
  repeat (rewrite lookup_insert_ne; [|intros <-; apply Hk; in_literals]).
  done.
Qed.

Lemma addPublicNetwork_dom (nets : gmap string object) name networkId :
  dom (addPublicNetwork nets name networkId)
    = dom nets ∪ list_to_set ((λ sfx, name +:+ sfx) <$> public_suffixes).
Proof.
  unfold addPublicNetwork. rewrite !dom_insert_L. simpl.
  apply set_eq. intros k.
  rewrite !elem_of_union, !elem_of_singleton, elem_of_empty. tauto.
Qed.

Lemma public_options_base networkId f :
  has_base_options networkId (with_provider (public_options networkId) f).
Proof. repeat split. Qed.

(** C2. [addPublicNetwork] puts exactly five entries in the registry, under
    the name followed by _gckms, _privatekey, _mnemonic, _ledger and
    _ledger_legacy: the five keys are distinct, they are all the registry
    gains, every other key keeps its entry, and each new entry holds the
    base options (networkCheckTimeout 10000, the given network id, gas
    undefined, gasPrice 20000000000) and a provider factory, the five
    factories being distinct and the entries equal apart from them. *)
Theorem addPublicNetwork_five_entries
    (nets : gmap string object) (name : string) (networkId : value) :
  let keys := (λ sfx, name +:+ sfx) <$> public_suffixes in
  let result := addPublicNetwork nets name networkId in
  length keys = 5%nat
  ∧ NoDup keys
  ∧ dom result = dom nets ∪ list_to_set keys
  ∧ (∀ k, k ∉ keys → result !! k = nets !! k)
  ∧ NoDup (public_factories networkId)
  ∧ ∀ i sfx f,
      public_suffixes !! i = Some sfx →
      public_factories networkId !! i = Some f →
      ∃ entry,
        result !! (name +:+ sfx) = Some entry
        ∧ has_base_options networkId entry
        ∧ entry !! "provider" = Some (VFunction f)
        ∧ dom entry = {[ "networkCheckTimeout"; "network_id"; "gas";
                         "gasPrice"; "provider" ]}
        ∧ delete "provider" entry = public_options networkId.
Proof.
  intros keys result. split; [reflexivity|].
  split; [apply public_keys_NoDup|].
  split; [apply addPublicNetwork_dom|].
  split; [intros k; apply addPublicNetwork_other|].
  split.
  { unfold public_factories.
    repeat (apply NoDup_cons; split; [not_in_literals|]). apply NoDup_nil_2. }
  intros i sfx f Hs Hf.
  exists (with_provider (public_options networkId) f).
  split; [by eapply addPublicNetwork_lookup|].
  split; [apply public_options_base|].
  split; [reflexivity|].
  split.
  - unfold with_provider, public_options.
    rewrite !dom_insert_L, dom_empty_L. apply set_eq. intros k.
    rewrite !elem_of_union, !elem_of_singleton, elem_of_empty. tauto.
  - unfold with_provider. rewrite delete_insert_eq. apply delete_id. reflexivity.
Qed.

Lemma addPublicNetwork_five_entries_witness :
  ∃ entry,
    addPublicNetwork ∅ "kovan" (VString "42") !! "kovan_ledger" = Some entry
    ∧ has_base_options (VString "42") entry
    ∧ entry !! "provider" = Some (VFunction (ledger_provider (VString "42"))).
Proof.
  destruct (addPublicNetwork_five_entries ∅ "kovan" (VString "42"))
    as (_ & _ & _ & _ & _ & H).
  destruct (H 3%nat "_ledger" (ledger_provider (VString "42")) eq_refl eq_refl)
    as (entry & He & Hb & Hp & _).
  exists entry. exact (conj He (conj Hb Hp)).
Defined.

(** ** [addLocalNetwork] *)

Lemma local_defaultOptions_lookup k :
  local_defaultOptions !! k = spec_local_default k.
Proof.
  unfold local_defaultOptions, spec_local_default.
  destruct (String.eqb_spec k "host") as [->|?]; [reflexivity|].
  destruct (String.eqb_spec k "network_id") as [->|?]; [reflexivity|].
  destruct (String.eqb_spec k "port") as [->|?]; [reflexivity|].
  destruct (String.eqb_spec k "gas") as [->|?]; [reflexivity|].
  by rewrite !lookup_insert_ne, lookup_empty.
Qed.

Lemma spread2_lookup customOptions k :
  spread2 local_defaultOptions customOptions !! k = spec_merge customOptions k.
Proof.
  unfold spread2, spec_merge. rewrite lookup_union, local_defaultOptions_lookup.
  destruct customOptions as [custom|]; simpl.
  - by destruct (custom !! k), (spec_local_default k).
  - rewrite lookup_empty. by destruct (spec_local_default k).
Qed.

Lemma addLocalNetwork_lookup env (nets : gmap string object) name customOptions :
  addLocalNetwork env nets name customOptions !! name
    = Some (local_entry env customOptions).
Proof.
  unfold addLocalNetwork, local_entry.
  destruct (env !! "LOCALHOST"), (env !! "LOCALPORT");
    rewrite ?lookup_alter_eq, lookup_insert_eq; reflexivity.
Qed.

Lemma addLocalNetwork_lookup_ne env (nets : gmap string object) name customOptions n :
  n ≠ name →
  addLocalNetwork env nets name customOptions !! n = nets !! n.
Proof.
  intros Hne. unfold addLocalNetwork.
  destruct (env !! "LOCALHOST"), (env !! "LOCALPORT");
    rewrite ?lookup_alter_ne by done; by rewrite lookup_insert_ne.
Qed.

Lemma local_entry_host env customOptions :
  local_entry env customOptions !! "host"
    = match env !! "LOCALHOST" with
      | Some h => Some (VString h)
      | None => spec_merge customOptions "host"
      end.
Proof.
  unfold local_entry.
  destruct (env !! "LOCALPORT"); [rewrite lookup_insert_ne by done|];
    (destruct (env !! "LOCALHOST"); [apply lookup_insert_eq | apply spread2_lookup]).
Qed.

Lemma local_entry_port env customOptions :
  local_entry env customOptions !! "port"
    = match env !! "LOCALPORT" with
      | Some p => Some (VString p)
      | None => spec_merge customOptions "port"
      end.
Proof.
  unfold local_entry.
  destruct (env !! "LOCALPORT"); [apply lookup_insert_eq|].
  destruct (env !! "LOCALHOST"); [rewrite lookup_insert_ne by done|];
    apply spread2_lookup.
Qed.

Lemma local_entry_other env customOptions k :
  k ≠ "host" → k ≠ "port" →
  local_entry env customOptions !! k = spec_merge customOptions k.
Proof.
  intros Hh Hp. unfold local_entry.
  destruct (env !! "LOCALPORT"); [rewrite lookup_insert_ne by done|];
    (destruct (env !! "LOCALHOST"); [rewrite lookup_insert_ne by done|]);
    apply spread2_lookup.
Qed.

(** C3. The entry [addLocalNetwork] registers is the shallow merge of the
    defaults (host 127.0.0.1, network_id *, port 9545, gas undefined) with
    the caller's overrides, the overrides winning; when LOCALHOST
    (respectively LOCALPORT) is in the environment its value is the entry's
    host (respectively port) whatever the defaults and overrides say; no
    other field depends on the environment. *)
Theorem addLocalNetwork_precedence
    (env : environment) (nets : gmap string object) (name : string)
    (customOptions : option object) :
  ∃ entry,
    addLocalNetwork env nets name customOptions !! name = Some entry
    ∧ entry !! "host"
        = match env !! "LOCALHOST" with
          | Some h => Some (VString h)
          | None => spec_merge customOptions "host"
          end
    ∧ entry !! "port"
        = match env !! "LOCALPORT" with
          | Some p => Some (VString p)
          | None => spec_merge customOptions "port"
          end
    ∧ (∀ k, k ≠ "host" → k ≠ "port" → entry !! k = spec_merge customOptions k)
    ∧ (∀ n, n ≠ name →
            addLocalNetwork env nets name customOptions !! n = nets !! n).
Proof.
  exists (local_entry env customOptions).
  split; [apply addLocalNetwork_lookup|].
  split; [apply local_entry_host|].
  split; [apply local_entry_port|].
  split; [apply local_entry_other|].
  intros n. apply addLocalNetwork_lookup_ne.
Qed.

Lemma addLocalNetwork_precedence_witness :
  ∃ entry,
    addLocalNetwork localport_env ∅ "coverage" (Some ci_options) !! "coverage"
      = Some entry
    ∧ entry !! "host" = Some (VString "127.0.0.1")
    ∧ entry !! "port" = Some (VString "9999")
    ∧ entry !! "network_id" = Some (VNumber (Int 1234))
    ∧ entry !! "gas" = Some VUndefined.
Proof.
  destruct (addLocalNetwork_precedence localport_env ∅ "coverage" (Some ci_options))
    as (entry & He & Hh & Hp & Hk & _).
  exists entry. split; [exact He|]. split; [exact Hh|]. split; [exact Hp|].
  split; [apply (Hk "network_id"); discriminate | apply (Hk "gas"); discriminate].
Defined.

(** ** The registered local networks *)

Lemma networks_local_lookup env PublicNetworks name customOptions :
  (name, customOptions) ∈ local_registrations →
  networks env PublicNetworks !! name = Some (local_entry env customOptions).
Proof.
  unfold local_registrations. rewrite !elem_of_cons, elem_of_nil.
  unfold networks.
  intros [H|[H|[H|[H|[H|[H|[]]]]]]]; injection H as -> ->;
    rewrite ?addLocalNetwork_lookup_ne by discriminate;
    apply addLocalNetwork_lookup.
Qed.

(** C8, as stated, fails: with LOCALPORT set to 9999 the port of [develop]
    is the string 9999 of the environment, not the number 9999. *)
Lemma develop_port_counterexample :
  ∃ entry,
    networks localport_env [("42", "kovan")] !! "develop" = Some entry
    ∧ entry !! "port" = Some (VString "9999")
    ∧ entry !! "port" ≠ Some (VNumber (Int 9999)).
Proof.
  exists (local_entry localport_env None).
  split; [apply networks_local_lookup; unfold local_registrations; in_literals|].
  rewrite local_entry_port. split; [reflexivity | discriminate].
Qed.

(** C8, amended. With LOCALPORT set to 9999, the [develop] network, which is
    registered without overrides, has that value, the string 9999 of the
    environment, as its port. *)
Theorem develop_port_from_LOCALPORT
    (env : environment) (PublicNetworks : list (string * string)) :
  env !! "LOCALPORT" = Some "9999" →
  ∃ entry,
    networks env PublicNetworks !! "develop" = Some entry
    ∧ entry !! "port" = Some (VString "9999").
Proof.
  intros Hport. exists (local_entry env None).
  split; [apply networks_local_lookup; unfold local_registrations; in_literals|].
  by rewrite local_entry_port, Hport.
Qed.

Lemma develop_port_from_LOCALPORT_witness :
  ∃ entry,
    networks localport_env [("42", "kovan")] !! "develop" = Some entry
    ∧ entry !! "port" = Some (VString "9999").
Proof.
  apply (develop_port_from_LOCALPORT localport_env [("42", "kovan")]).
  reflexivity.
Defined.

(** C10. Presence, not non-emptiness, triggers the local override: with
    LOCALHOST (or LOCALPORT) present and empty, every entry
    [addLocalNetwork] makes, and so each local network the module
    registers, has the empty string as host (or port); an empty MNEMONIC,
    PRIVATE_KEY or INFURA_API_KEY is treated as absent and the fallback
    literal is used. *)
Theorem presence_triggers_local_override (env : environment) :
  (env !! "LOCALHOST" = Some "" →
     (∀ (nets : gmap string object) name customOptions,
        ∃ entry, addLocalNetwork env nets name customOptions !! name = Some entry
                 ∧ entry !! "host" = Some (VString ""))
     ∧ (∀ PublicNetworks name customOptions,
          (name, customOptions) ∈ local_registrations →
          ∃ entry, networks env PublicNetworks !! name = Some entry
                   ∧ entry !! "host" = Some (VString "")))
  ∧ (env !! "LOCALPORT" = Some "" →
     (∀ (nets : gmap string object) name customOptions,
        ∃ entry, addLocalNetwork env nets name customOptions !! name = Some entry
                 ∧ entry !! "port" = Some (VString ""))
     ∧ (∀ PublicNetworks name customOptions,
          (name, customOptions) ∈ local_registrations →
          ∃ entry, networks env PublicNetworks !! name = Some entry
                   ∧ entry !! "port" = Some (VString "")))
  ∧ (env !! "MNEMONIC" = Some "" → mnemonic env = fallback_mnemonic)
  ∧ (env !! "PRIVATE_KEY" = Some "" → privateKey env = fallback_privateKey)
  ∧ (env !! "INFURA_API_KEY" = Some "" → infuraApiKey env = fallback_infuraApiKey).
Proof.
  split; [|split; [|split; [|split]]].
  - intros H. split.
    + intros nets name customOptions. exists (local_entry env customOptions).
      split; [apply addLocalNetwork_lookup | by rewrite local_entry_host, H].
    + intros PublicNetworks name customOptions Hin.
      exists (local_entry env customOptions).
      split; [by apply networks_local_lookup | by rewrite local_entry_host, H].
  - intros H. split.
    + intros nets name customOptions. exists (local_entry env customOptions).
      split; [apply addLocalNetwork_lookup | by rewrite local_entry_port, H].
    + intros PublicNetworks name customOptions Hin.
      exists (local_entry env customOptions).
      split; [by apply networks_local_lookup | by rewrite local_entry_port, H].
  - intros H. unfold mnemonic. rewrite H. apply or_default_empty.
  - intros H. unfold privateKey. rewrite H. apply or_default_empty.
  - intros H. unfold infuraApiKey. rewrite H. apply or_default_empty.
Qed.

Lemma presence_triggers_local_override_witness :
  (∃ entry, networks empty_values_env [("1", "mainnet")] !! "mainnet-fork" = Some entry
            ∧ entry !! "host" = Some (VString ""))
  ∧ (∃ entry, addLocalNetwork empty_values_env ∅ "ci" (Some ci_options) !! "ci"
                = Some entry
              ∧ entry !! "port" = Some (VString ""))
  ∧ mnemonic empty_values_env = fallback_mnemonic
  ∧ privateKey empty_values_env = fallback_privateKey
  ∧ infuraApiKey empty_values_env = fallback_infuraApiKey.
Proof.
  destruct (presence_triggers_local_override empty_values_env)
    as (Hhost & Hport & Hm & Hp & Hi).
  split.
  { apply (proj2 (Hhost eq_refl) [("1", "mainnet")] "mainnet-fork"
             (Some mainnet_fork_options)).
    unfold local_registrations. in_literals. }
  split; [apply (proj1 (Hport eq_refl) ∅ "ci" (Some ci_options))|].
  split; [exact (Hm eq_refl)|]. split; [exact (Hp eq_refl) | exact (Hi eq_refl)].
Defined.

(** ** [nodeUrl] and building the configuration *)

Lemma nodeUrl_custom global_name env a url :
  env !! "CUSTOM_NODE_URL" = Some (String a url) →
  nodeUrl global_name env = Normal (String a url).
Proof. intros H. unfold nodeUrl, customNodeUrl. by rewrite H. Qed.

Lemma nodeUrl_unbound_name env :
  truthy (env !! "CUSTOM_NODE_URL") = false →
  nodeUrl node_global_name env = Throw (ReferenceError "name").
Proof. intros H. unfold nodeUrl, customNodeUrl. by rewrite H. Qed.

(** With a custom node URL the module loads and the configuration is built. *)
Lemma build_completes global_name env PublicNetworks contextDirectory a url :
  env !! "CUSTOM_NODE_URL" = Some (String a url) →
  build global_name env PublicNetworks contextDirectory
    = Normal (getTruffleConfig (networks env PublicNetworks) contextDirectory).
Proof.
  intros H. unfold build, load. by rewrite (nodeUrl_custom _ _ _ _ H).
Qed.

(** C5, what the code does. In a Node.js process whose environment has no
    CUSTOM_NODE_URL, or an empty one, building the configuration throws
    [ReferenceError: name is not defined] while the module is loaded (line
    39), whatever the context directory: an error is signalled, and not by
    a collaborator's constructor. *)
Theorem build_throws_without_custom_node_url
    (env : environment) (PublicNetworks : list (string * string))
    (contextDirectory : option string) :
  truthy (env !! "CUSTOM_NODE_URL") = false →
  build node_global_name env PublicNetworks contextDirectory
    = Throw (ReferenceError "name").
Proof.
  intros H. unfold build, load. by rewrite (nodeUrl_unbound_name _ H).
Qed.

Lemma build_throws_without_custom_node_url_witness :
  build node_global_name ∅ [("1", "mainnet"); ("42", "kovan")] (Some "./")
    = Throw (ReferenceError "name").
Proof.
  apply (build_throws_without_custom_node_url ∅). reflexivity.
Defined.

(** ** [getTruffleConfig] *)

(** C6, as stated, fails: for the context directory "./" the migrations
    directory is "migrations", not "./migrations" ([path.join] normalises
    its result), and likewise for the two other directories. *)
Lemma directories_counterexample :
  migrations_directory (getTruffleConfig ∅ (Some "./")) = "migrations"
  ∧ ¬ (migrations_directory (getTruffleConfig ∅ (Some "./")) = "./migrations"
       ∧ contracts_directory (getTruffleConfig ∅ (Some "./")) = "./contracts"
       ∧ contracts_build_directory (getTruffleConfig ∅ (Some "./"))
         = "./build/contracts").
Proof.
  split; [reflexivity|]. intros [H _]. vm_compute in H. discriminate H.
Qed.

(** C6, amended. For the context directory "./", given or by default, the
    three directories are "migrations", "contracts" and "build/contracts":
    the normal forms, under POSIX [path.join], of "./migrations",
    "./contracts" and "./build/contracts". *)
Theorem directories_of_current_directory (nets : gmap string object) :
  (∀ arg, arg = Some "./" ∨ arg = None →
     migrations_directory (getTruffleConfig nets arg) = "migrations"
     ∧ contracts_directory (getTruffleConfig nets arg) = "contracts"
     ∧ contracts_build_directory (getTruffleConfig nets arg) = "build/contracts")
  ∧ path.normalize "./migrations" = "migrations"
  ∧ path.normalize "./contracts" = "contracts"
  ∧ path.normalize "./build/contracts" = "build/contracts".
Proof.
  split; [|by vm_compute].
  intros arg [-> | ->]; by vm_compute.
Qed.

Lemma directories_of_current_directory_witness :
  migrations_directory (getTruffleConfig ∅ (Some "./")) = "migrations"
  ∧ contracts_directory (getTruffleConfig ∅ (Some "./")) = "contracts"
  ∧ contracts_build_directory (getTruffleConfig ∅ (Some "./")) = "build/contracts".
Proof.
  apply (proj1 (directories_of_current_directory ∅) (Some "./")).
  left. reflexivity.
Defined.

(** C7. Whatever the environment, the registered networks and the context
    directory, the compiler settings of the configuration are solc 0.6.12
    with the optimizer enabled and 199 runs. *)
Theorem compiler_settings_constant
    (global_name : option string) (env : environment)
    (PublicNetworks : list (string * string)) (nets : gmap string object)
    (contextDirectory : option string) :
  compilers_solc (getTruffleConfig nets contextDirectory) = spec_compilers
  ∧ version (compilers_solc (getTruffleConfig nets contextDirectory)) = "0.6.12"
  ∧ enabled (optimizer (compilers_solc (getTruffleConfig nets contextDirectory)))
    = true
  ∧ runs (optimizer (compilers_solc (getTruffleConfig nets contextDirectory)))
    = 199
  ∧ ∀ config,
      build global_name env PublicNetworks contextDirectory = Normal config →
      compilers_solc config = spec_compilers.
Proof.
  repeat (split; [reflexivity|]).
  intros config. unfold build, load.
  destruct (nodeUrl global_name env); simpl; [|discriminate].
  by intros [= <-].
Qed.

Lemma compiler_settings_constant_witness :
  ∃ config,
    build node_global_name localport_env [("42", "kovan")] (Some "/srv/app")
      = Normal config
    ∧ compilers_solc config = spec_compilers.
Proof.
  eexists. split; [reflexivity|].
  apply (proj2 (proj2 (proj2 (proj2 (compiler_settings_constant
           node_global_name localport_env [("42", "kovan")] ∅ (Some "/srv/app")))))).
  reflexivity.
Defined.

(** ** The shared provider *)

Section Singleton.
Context {GckmsEntry : Type}.
Variable GckmsConfig : list GckmsEntry.
Variable constructor_throws : construction GckmsEntry → bool.
Variable env : environment.
Variable url : string.

Local Abbreviation invoke := (call GckmsConfig constructor_throws env url).
Local Abbreviation invoke_all :=
  (call_all GckmsConfig constructor_throws env url).
Local Abbreviation constructed := (construction_of GckmsConfig env url).

(** Once the slot is set, a call returns what it holds and changes
    nothing. *)
Lemma call_set f arg (s : process GckmsEntry) p :
  singletonProvider s = Some p → invoke f arg s = Normal (p, s).
Proof. intros H. unfold call. by rewrite H. Qed.

(** A call on an undefined slot runs the factory's own constructor. *)
Lemma call_unset f arg (s : process GckmsEntry) :
  singletonProvider s = None →
  constructor_throws (constructed f arg) = false →
  invoke f arg s
    = Normal (length (heap s),
              {| heap := heap s ++ [constructed f arg];
                 singletonProvider := Some (length (heap s)) |}).
Proof.
  intros Hs Hc. unfold call, new. by rewrite Hs, Hc.
Qed.

Lemma call_unset_throws f arg (s : process GckmsEntry) :
  singletonProvider s = None →
  constructor_throws (constructed f arg) = true →
  invoke f arg s = Throw (CollaboratorError (class_name (constructed f arg))).
Proof.
  intros Hs Hc. unfold call, new. by rewrite Hs, Hc.
Qed.

(** After any call that returns, the slot holds the returned reference. *)
Lemma call_returns_slot f arg (s s1 : process GckmsEntry) r :
  invoke f arg s = Normal (r, s1) → singletonProvider s1 = Some r.
Proof.
  unfold call, new.
  destruct (singletonProvider s) as [p|] eqn:Hs.
  - intros [= <- <-]. exact Hs.
  - destruct (constructor_throws _); simpl; [discriminate|].
    by intros [= <- <-].
Qed.

Lemma call_all_set calls (s : process GckmsEntry) p :
  singletonProvider s = Some p →
  invoke_all calls s = Normal (replicate (length calls) p, s).
Proof.
  intros Hs. induction calls as [|[f arg] rest IH]; [reflexivity|].
  simpl. rewrite (call_set f arg s p Hs). simpl. by rewrite IH.
Qed.
End Singleton.

(** C1. In one process whose slot is still undefined, the first provider
    factory called (of any public network and mechanism, or the metamask
    one), when its constructor returns, builds a new provider object with
    its own constructor and stores it in the shared slot; every factory
    called afterwards, with any argument, returns that same reference and
    leaves the process as it is.  More generally, after any factory call
    that returns, every factory returns the reference it returned. *)
Theorem singleton_provider_shared
    {GckmsEntry : Type} (GckmsConfig : list GckmsEntry)
    (constructor_throws : construction GckmsEntry → bool)
    (env : environment) (url : string)
    (f g : closure value) (a b : value) (s : process GckmsEntry) :
  singletonProvider s = None →
  constructor_throws (construction_of GckmsConfig env url f a) = false →
  ∃ r s1,
    call GckmsConfig constructor_throws env url f a s = Normal (r, s1)
    ∧ r = length (heap s)
    ∧ heap s1 = (heap s ++ [construction_of GckmsConfig env url f a])%list
    ∧ heap s1 !! r = Some (construction_of GckmsConfig env url f a)
    ∧ singletonProvider s1 = Some r
    ∧ call GckmsConfig constructor_throws env url g b s1 = Normal (r, s1)
    ∧ call GckmsConfig constructor_throws env url f a s1 = Normal (r, s1)
    ∧ (∀ calls,
         call_all GckmsConfig constructor_throws env url calls s1
           = Normal (replicate (length calls) r, s1))
    ∧ (∀ s' r' s1',
         call GckmsConfig constructor_throws env url f a s' = Normal (r', s1') →
         singletonProvider s1' = Some r'
         ∧ call GckmsConfig constructor_throws env url g b s1' = Normal (r', s1')).
Proof.
  intros Hs Hc.
  exists (length (heap s)),
    {| heap := heap s ++ [construction_of GckmsConfig env url f a];
       singletonProvider := Some (length (heap s)) |}.
  split; [by apply call_unset|]. split; [reflexivity|]. split; [reflexivity|].
  split; [simpl; rewrite lookup_app_r by done; by rewrite Nat.sub_diag|].
  split; [reflexivity|].
  split; [by apply call_set|]. split; [by apply call_set|].
  split; [intros calls; by apply call_all_set|].
  intros s' r' s1' Hcall.
  pose proof (call_returns_slot _ _ _ _ _ _ _ _ _ Hcall) as Hslot.
  split; [exact Hslot | by apply call_set].
Qed.

Lemma singleton_provider_shared_witness :
  ∃ r s1,
    call [tt] (λ _, false) ∅ "ws://node" privatekey_provider VUndefined
         fresh_process = Normal (r, s1)
    ∧ r = 0%nat
    ∧ heap s1 = [HDWalletProvider_keys [fallback_privateKey] (VString "ws://node")]
    ∧ call [tt] (λ _, false) ∅ "ws://node" metamask_provider VUndefined s1
      = Normal (r, s1)
    ∧ call_all [tt] (λ _, false) ∅ "ws://node"
        [(gckms_provider, VUndefined);
         (ledger_provider (VString "42"), VString "ws://other")] s1
      = Normal ([r; r], s1).
Proof.
  destruct (singleton_provider_shared [tt] (λ _, false) ∅ "ws://node"
              privatekey_provider metamask_provider VUndefined VUndefined
              fresh_process eq_refl eq_refl)
    as (r & s1 & Hf & Hr & Hheap & _ & _ & Hg & _ & Hall & _).
  exists r, s1. split; [exact Hf|]. split; [exact Hr|].
  split; [exact Hheap|]. split; [exact Hg|].
  exact (Hall [(gckms_provider, VUndefined);
               (ledger_provider (VString "42"), VString "ws://other")]).
Defined.


(** * Further properties of the module *)

(** ** Credentials *)

Lemma or_default_cases x d :
  d ≠ "" → or_default x d ≠ "" ∧ (or_default x d = d ∨ x = Some (or_default x d)).
Proof.
  intros Hd. destruct x as [[|a s]|]; simpl; [by auto | | by auto].
  split; [discriminate | by right].
Qed.

(** X1. Whatever the environment holds, the three credentials the module
    resolves are non-empty strings: each is the fallback literal or the
    value of its variable, and an empty value is never taken. *)
Theorem credentials_never_empty (env : environment) :
  (mnemonic env ≠ ""
   ∧ (mnemonic env = fallback_mnemonic ∨ env !! "MNEMONIC" = Some (mnemonic env)))
  ∧ (privateKey env ≠ ""
     ∧ (privateKey env = fallback_privateKey
        ∨ env !! "PRIVATE_KEY" = Some (privateKey env)))
  ∧ (infuraApiKey env ≠ ""
     ∧ (infuraApiKey env = fallback_infuraApiKey
        ∨ env !! "INFURA_API_KEY" = Some (infuraApiKey env))).
Proof.
  unfold mnemonic, privateKey, infuraApiKey.
  split; [|split]; by apply or_default_cases.
Qed.

(** ** Loading the module *)

(** X2. In a Node.js process, a module that loaded has the custom node URL
    of the environment, a non-empty string, as its exported [nodeUrl], and
    the registry of lines 147-175 as its networks; and whenever
    CUSTOM_NODE_URL is non-empty the module does load. *)
Theorem load_in_node (env : environment) (PublicNetworks : list (string * string)) :
  (∀ m, load node_global_name env PublicNetworks = Normal m →
        env !! "CUSTOM_NODE_URL" = Some (exported_nodeUrl m)
        ∧ exported_nodeUrl m ≠ ""
        ∧ exported_networks m = networks env PublicNetworks)
  ∧ (∀ a url, env !! "CUSTOM_NODE_URL" = Some (String a url) →
        load node_global_name env PublicNetworks
          = Normal {| exported_nodeUrl := String a url;
                      exported_networks := networks env PublicNetworks |}).
Proof.
  split.
  - intros m. unfold load, nodeUrl, customNodeUrl, node_global_name.
    destruct (env !! "CUSTOM_NODE_URL") as [[|a url]|]; simpl; try discriminate.
    by intros [= <-].
  - intros a url H. unfold load. by rewrite (nodeUrl_custom _ _ _ _ H).
Qed.

Lemma load_in_node_witness :
  ∃ m, load node_global_name localport_env [("42", "kovan")] = Normal m
       ∧ exported_nodeUrl m = "http://localhost:8545".
Proof.
  eexists. split.
  - apply (proj2 (load_in_node localport_env [("42", "kovan")]) "h"%char
             "ttp://localhost:8545").
    reflexivity.
  - reflexivity.
Defined.

(** ** Provider factories *)

(** X3. A factory call throws exactly when the slot is undefined and the
    constructor of that factory throws, and the error is the constructor's:
    once a provider is stored no factory call can fail. *)
Theorem call_throws_iff
    {GckmsEntry : Type} (GckmsConfig : list GckmsEntry)
    (constructor_throws : construction GckmsEntry → bool)
    (env : environment) (url : string)
    (f : closure value) (arg : value) (s : process GckmsEntry) (e : error) :
  call GckmsConfig constructor_throws env url f arg s = Throw e
  ↔ singletonProvider s = None
    ∧ constructor_throws (construction_of GckmsConfig env url f arg) = true
    ∧ e = CollaboratorError
            (class_name (construction_of GckmsConfig env url f arg)).
Proof.
  unfold call, new. split.
  - destruct (singletonProvider s); [discriminate|].
    destruct (constructor_throws _); simpl; [|discriminate].
    by intros [= <-].
  - intros (-> & -> & ->). reflexivity.
Qed.

Lemma call_throws_iff_witness :
  call [tt] (λ _, true) ∅ "ws://node" metamask_provider VUndefined fresh_process
    = Throw (CollaboratorError "MetaMaskTruffleProvider").
Proof.
  apply (proj2 (call_throws_iff [tt] (λ _, true) ∅ "ws://node" metamask_provider
                  VUndefined fresh_process
                  (CollaboratorError "MetaMaskTruffleProvider"))).
  repeat split.
Defined.

(** X4. In a fresh process, if the constructor of the first factory called
    does not throw, any run of factory calls completes, every call returns
    the one object the first factory built, and no other constructor is
    run, even one that would throw. *)
Theorem first_factory_wins
    {GckmsEntry : Type} (GckmsConfig : list GckmsEntry)
    (constructor_throws : construction GckmsEntry → bool)
    (env : environment) (url : string)
    (f : closure value) (arg : value) (rest : list (closure value * value)) :
  constructor_throws (construction_of GckmsConfig env url f arg) = false →
  call_all GckmsConfig constructor_throws env url ((f, arg) :: rest) fresh_process
    = Normal (replicate (S (length rest)) 0%nat,
              {| heap := [construction_of GckmsConfig env url f arg];
                 singletonProvider := Some 0%nat |}).
Proof.
  intros Hc. cbn [call_all].
  rewrite (call_unset _ _ _ _ f arg fresh_process eq_refl Hc). cbn [bind fst snd].
  by rewrite (call_all_set _ constructor_throws env url rest
                {| heap := heap fresh_process ++ [construction_of GckmsConfig env url f arg];
                   singletonProvider := Some (length (heap (@fresh_process GckmsEntry))) |}
                0%nat eq_refl).
Qed.

Lemma first_factory_wins_witness :
  call_all [tt; tt]
    (λ c, match c with MetaMaskTruffleProvider => true | _ => false end)
    ∅ "ws://node"
    [(gckms_provider, VUndefined); (metamask_provider, VUndefined)]
    fresh_process
  = Normal ([0%nat; 0%nat],
            {| heap := [ManagedSecretProvider [tt; tt] (VString "ws://node") 0 2];
               singletonProvider := Some 0%nat |}).
Proof.
  apply (first_factory_wins [tt; tt]
           (λ c, match c with MetaMaskTruffleProvider => true | _ => false end)
           ∅ "ws://node" gckms_provider VUndefined [(metamask_provider, VUndefined)]).
  reflexivity.
Defined.

(** X5. Factory calls keep the process within "at most one provider ever
    constructed", and from such a process every call that returns returns
    the first address. *)
Theorem call_preserves_at_most_one
    {GckmsEntry : Type} (GckmsConfig : list GckmsEntry)
    (constructor_throws : construction GckmsEntry → bool)
    (env : environment) (url : string)
    (f : closure value) (arg : value) (s s1 : process GckmsEntry) (r : nat) :
  at_most_one_provider s →
  call GckmsConfig constructor_throws env url f arg s = Normal (r, s1) →
  at_most_one_provider s1 ∧ r = 0%nat.
Proof.
  unfold at_most_one_provider, call, new.
  destruct (singletonProvider s) as [p|] eqn:Hs.
  - intros [-> Hlen] [= <- <-]. by rewrite Hs.
  - intros Hheap. destruct (constructor_throws _); simpl; [discriminate|].
    intros [= <- <-]. simpl. by rewrite Hheap.
Qed.

Lemma call_preserves_at_most_one_witness :
  at_most_one_provider
    {| heap := [@MetaMaskTruffleProvider unit]; singletonProvider := Some 0%nat |}.
Proof.
  apply (call_preserves_at_most_one [] (λ _, false) ∅ "ws://node"
           metamask_provider VUndefined fresh_process _ 0%nat);
    reflexivity.
Defined.

(** ** The key scheme of public networks *)

Lemma string_app_nil (s : string) : "" +:+ s = s.
Proof. reflexivity. Qed.

Lemma string_app_cons c (a s : string) : String c a +:+ s = String c (a +:+ s).
Proof. reflexivity. Qed.

Lemma string_length_app (a b : string) :
  String.length (a +:+ b) = (String.length a + String.length b)%nat.
Proof.
  induction a as [|c a IH]; [done|].
  rewrite string_app_cons. simpl. by rewrite IH.
Qed.

Lemma string_app_inj_r (s a b : string) : a +:+ s = b +:+ s → a = b.
Proof.
  revert b. induction a as [|c a IH]; intros [|c' b] H;
    rewrite ?string_app_cons, ?string_app_nil in H.
  - done.
  - apply (f_equal String.length) in H. simpl in H.
    pose proof (string_length_app b s). lia.
  - apply (f_equal String.length) in H. simpl in H.
    pose proof (string_length_app a s). lia.
  - injection H as -> H. f_equal. by apply IH.
Qed.

(** Two splits of one string: one tail is a tail of the other. *)
Lemma string_app_eq_tails (a b s1 s2 : string) :
  a +:+ s1 = b +:+ s2 → (∃ d, s1 = d +:+ s2) ∨ (∃ d, s2 = d +:+ s1).
Proof.
  revert b. induction a as [|c a IH]; intros b H.
  - left. by exists b.
  - destruct b as [|c' b]; rewrite ?string_app_cons, ?string_app_nil in H.
    + right. by exists (String c a).
    + injection H as _ H. by apply (IH b).
Qed.

(** Reads [H : literal = d +:+ literal'] one character at a time. *)
Ltac peel_literal d H :=
  destruct d as [|? d]; rewrite ?string_app_cons, ?string_app_nil in H;
  [ first [reflexivity | discriminate H]
  | first [discriminate H | injection H as ? H; peel_literal d H] ].

(** No suffix of the scheme ends with another one. *)
Lemma public_suffix_tail (s1 s2 d : string) :
  s1 ∈ public_suffixes → s2 ∈ public_suffixes → s1 = d +:+ s2 → s1 = s2.
Proof.
  unfold public_suffixes. rewrite !elem_of_cons, !elem_of_nil.
  intros [->|[->|[->|[->|[->|[]]]]]] [->|[->|[->|[->|[->|[]]]]]] H;
    peel_literal d H.
Qed.

Lemma suffixed_key_inj (name1 name2 s1 s2 : string) :
  s1 ∈ public_suffixes → s2 ∈ public_suffixes →
  name1 +:+ s1 = name2 +:+ s2 → name1 = name2 ∧ s1 = s2.
Proof.
  intros H1 H2 Heq.
  assert (s1 = s2) as ->.
  { destruct (string_app_eq_tails _ _ _ _ Heq) as [[d Hd]|[d Hd]].
    - by apply (public_suffix_tail s1 s2 d).
    - symmetry. by apply (public_suffix_tail s2 s1 d). }
  split; [by apply (string_app_inj_r s2) | done].
Qed.

(** X6. The keys of public networks identify the network and the mechanism:
    two keys made of a name and a suffix of the scheme are equal only when
    the names are equal and the suffixes are equal, so two networks with
    different names never share an entry. *)
Theorem public_key_inj (name1 name2 s1 s2 : string) :
  s1 ∈ public_suffixes → s2 ∈ public_suffixes →
  name1 +:+ s1 = name2 +:+ s2 → name1 = name2 ∧ s1 = s2.
Proof. apply suffixed_key_inj. Qed.

Lemma public_key_inj_witness :
  "kovan" = "kovan" ∧ "_ledger" = "_ledger".
Proof.
  apply (public_key_inj "kovan" "kovan" "_ledger" "_ledger");
    [unfold public_suffixes; in_literals | unfold public_suffixes; in_literals
    | reflexivity].
Defined.

Lemma public_keys_disjoint (name1 name2 k : string) :
  name1 ≠ name2 → k ∈ public_keys name1 → k ∉ public_keys name2.
Proof.
  unfold public_keys. intros Hne H1 H2.
  apply list_elem_of_fmap in H1 as (s1 & -> & Hs1).
  apply list_elem_of_fmap in H2 as (s2 & Heq & Hs2).
  by destruct (suffixed_key_inj _ _ _ _ Hs1 Hs2 Heq).
Qed.

(** ** [addPublicNetwork] and [addLocalNetwork] as updates of the registry *)

Lemma addPublicNetwork_union (nets : gmap string object) name networkId :
  addPublicNetwork nets name networkId = addPublicNetwork ∅ name networkId ∪ nets.
Proof.
  unfold addPublicNetwork.
  by rewrite <- !insert_union_l, (left_id_L ∅ (∪)).
Qed.

Lemma addPublicNetwork_empty_dom name networkId :
  dom (addPublicNetwork ∅ name networkId) = list_to_set (public_keys name).
Proof.
  rewrite addPublicNetwork_dom, dom_empty_L. by rewrite (left_id_L ∅ (∪)).
Qed.

Lemma union_shadow (m1 m2 m3 : gmap string object) :
  dom m1 ⊆ dom m2 → m2 ∪ (m1 ∪ m3) = m2 ∪ m3.
Proof.
  intros Hsub. apply map_eq. intros k. rewrite !lookup_union.
  destruct (m2 !! k) as [e|] eqn:H2; [by destruct (m1 !! k), (m3 !! k)|].
  assert (m1 !! k = None) as ->; [|by destruct (m3 !! k)].
  apply not_elem_of_dom. intros Hin. apply Hsub in Hin.
  by apply not_elem_of_dom in H2.
Qed.

(** X7. Registering a public network twice under one name keeps only the
    second registration: the five entries carry the later network id, and
    nothing of the earlier call is left. *)
Theorem addPublicNetwork_overwrites
    (nets : gmap string object) (name : string) (id1 id2 : value) :
  addPublicNetwork (addPublicNetwork nets name id1) name id2
    = addPublicNetwork nets name id2.
Proof.
  rewrite (addPublicNetwork_union (addPublicNetwork nets name id1)).
  rewrite (addPublicNetwork_union nets name id1).
  rewrite (addPublicNetwork_union nets name id2).
  apply union_shadow. by rewrite !addPublicNetwork_empty_dom.
Qed.

(** X8. Registrations of public networks with different names do not
    interfere: they can be made in either order. *)
Theorem addPublicNetwork_commutes
    (nets : gmap string object) (name1 name2 : string) (id1 id2 : value) :
  name1 ≠ name2 →
  addPublicNetwork (addPublicNetwork nets name1 id1) name2 id2
    = addPublicNetwork (addPublicNetwork nets name2 id2) name1 id1.
Proof.
  intros Hne.
  rewrite (addPublicNetwork_union (addPublicNetwork nets name1 id1)).
  rewrite (addPublicNetwork_union (addPublicNetwork nets name2 id2)).
  rewrite (addPublicNetwork_union nets name1 id1).
  rewrite (addPublicNetwork_union nets name2 id2).
  rewrite !(assoc_L (∪)). f_equal. apply map_union_comm.
  apply map_disjoint_dom. rewrite !addPublicNetwork_empty_dom.
  intros k H2%elem_of_list_to_set H1%elem_of_list_to_set.
  by apply (public_keys_disjoint name1 name2 k).
Qed.

Lemma addPublicNetwork_commutes_witness :
  addPublicNetwork (addPublicNetwork ∅ "kovan" (VString "42")) "rinkeby" (VString "4")
  = addPublicNetwork (addPublicNetwork ∅ "rinkeby" (VString "4")) "kovan" (VString "42").
Proof.
  apply (addPublicNetwork_commutes ∅ "kovan" "rinkeby"). discriminate.
Defined.

Lemma addLocalNetwork_insert env (nets : gmap string object) name customOptions :
  addLocalNetwork env nets name customOptions
    = <[name := local_entry env customOptions]> nets.
Proof.
  apply map_eq. intros k. destruct (decide (k = name)) as [->|Hne].
  - by rewrite addLocalNetwork_lookup, lookup_insert_eq.
  - by rewrite addLocalNetwork_lookup_ne, lookup_insert_ne.
Qed.

(** X9. Registering a local network twice under one name replaces the
    entry: the second call starts again from the defaults, and no override
    of the first call survives. *)
Theorem addLocalNetwork_overwrites
    (env : environment) (nets : gmap string object) (name : string)
    (custom1 custom2 : option object) :
  addLocalNetwork env (addLocalNetwork env nets name custom1) name custom2
    = addLocalNetwork env nets name custom2.
Proof. rewrite !addLocalNetwork_insert. apply insert_insert_eq. Qed.

(** X10. The entry of a local network has the keys of the defaults and of
    the caller's overrides and no others: the environment adds no key. *)
Theorem local_entry_dom (env : environment) (customOptions : option object) :
  dom (local_entry env customOptions)
    = dom (default ∅ customOptions) ∪ {[ "host"; "network_id"; "port"; "gas" ]}.
Proof.
  unfold local_entry, spread2, local_defaultOptions.
  destruct (env !! "LOCALHOST"), (env !! "LOCALPORT");
    rewrite ?dom_insert_L, dom_union_L, !dom_insert_L, dom_empty_L;
    apply set_eq; intros k;
    rewrite !elem_of_union, !elem_of_singleton, elem_of_empty; tauto.
Qed.

(** ** The registry the module builds *)

Lemma local_name_not_public (n name : string) :
  n ∈ local_names → n ∉ public_keys name.
Proof.
  unfold local_names, local_registrations, public_keys, public_suffixes.
  simpl. rewrite !elem_of_cons, !elem_of_nil.
  intros [->|[->|[->|[->|[->|[->|[]]]]]]] [H|[H|[H|[H|[H|[]]]]]];
    exfalso; peel_literal name H.
Qed.

Lemma register_public_dom pn (nets : gmap string object) :
  dom (foldl (λ networks '(id, name), addPublicNetwork networks name (VString id))
             nets pn)
    = dom nets ∪ list_to_set (pn.*2 ≫= public_keys).
Proof.
  revert nets. induction pn as [|[id name] pn IH]; intros nets.
  - simpl. by rewrite (right_id_L ∅ (∪)).
  - cbn [foldl]. rewrite fmap_cons, bind_cons, IH, addPublicNetwork_dom.
    rewrite list_to_set_app_L. by rewrite (assoc_L (∪)).
Qed.

Lemma register_public_lookup_other pn (nets : gmap string object) k :
  k ∉ pn.*2 ≫= public_keys →
  foldl (λ networks '(id, name), addPublicNetwork networks name (VString id))
        nets pn !! k = nets !! k.
Proof.
  revert nets. induction pn as [|[id name] pn IH]; intros nets Hk; [done|].
  rewrite fmap_cons, bind_cons in Hk.
  apply not_elem_of_app in Hk as [Hhere Hrest].
  cbn [foldl]. rewrite IH by done. by apply addPublicNetwork_other.
Qed.

Lemma register_public_lookup pn (nets : gmap string object) id name i sfx f :
  NoDup pn.*2 → (id, name) ∈ pn →
  public_suffixes !! i = Some sfx →
  public_factories (VString id) !! i = Some f →
  foldl (λ networks '(id, name), addPublicNetwork networks name (VString id))
        nets pn !! (name +:+ sfx)
    = Some (with_provider (public_options (VString id)) f).
Proof.
  intros Hnd Hin Hs Hf. revert nets.
  induction pn as [|[id0 name0] pn IH]; intros nets; [by apply elem_of_nil in Hin|].
  rewrite fmap_cons in Hnd. apply NoDup_cons in Hnd as [Hfresh Hnd].
  cbn [foldl].
  apply elem_of_cons in Hin as [[= <- <-]|Hin]; [|by apply IH].
  rewrite register_public_lookup_other; [by eapply addPublicNetwork_lookup|].
  intros (name' & Hk & Hname')%list_elem_of_bind.
  destruct (decide (name = name')) as [->|Hne]; [done|].
  apply (public_keys_disjoint name name' (name +:+ sfx) Hne); [|done].
  unfold public_keys. apply list_elem_of_fmap_2. by eapply list_elem_of_lookup_2.
Qed.

Lemma public_key_not_local (name sfx n : string) :
  sfx ∈ public_suffixes → n ∈ local_names → name +:+ sfx ≠ n.
Proof.
  intros Hs Hn Heq. apply (local_name_not_public n name Hn).
  rewrite <- Heq. unfold public_keys. by apply list_elem_of_fmap_2.
Qed.

(** X11. The registry the module builds holds, for every network of the
    table (network names being distinct), the five public entries of that
    network with the chain id of the table, whatever the environment: no
    local registration and no other network replaces them. *)
Theorem networks_public_entry
    (env : environment) (PublicNetworks : list (string * string))
    (id name : string) (i : nat) (sfx : string) (f : closure value) :
  NoDup PublicNetworks.*2 →
  (id, name) ∈ PublicNetworks →
  public_suffixes !! i = Some sfx →
  public_factories (VString id) !! i = Some f →
  networks env PublicNetworks !! (name +:+ sfx)
    = Some (with_provider (public_options (VString id)) f).
Proof.
  intros Hnd Hin Hs Hf. unfold networks.
  assert (Hsfx : sfx ∈ public_suffixes) by by eapply list_elem_of_lookup_2.
  rewrite !addLocalNetwork_lookup_ne
    by (apply public_key_not_local; [done | unfold local_names; in_literals]).
  exact (register_public_lookup _ _ id name i sfx f Hnd Hin Hs Hf).
Qed.

Lemma networks_public_entry_witness :
  networks localport_env [("1", "mainnet"); ("42", "kovan")] !! "kovan_mnemonic"
    = Some (with_provider (public_options (VString "42")) mnemonic_provider).
Proof.
  apply (networks_public_entry localport_env [("1", "mainnet"); ("42", "kovan")]
           "42" "kovan" 2%nat "_mnemonic" mnemonic_provider).
  - simpl. repeat (apply NoDup_cons; split; [not_in_literals|]). apply NoDup_nil_2.
  - in_literals.
  - reflexivity.
  - reflexivity.
Defined.

Lemma networks_keys (env : environment) (PublicNetworks : list (string * string)) :
  dom (networks env PublicNetworks)
    = list_to_set local_names ∪ list_to_set (PublicNetworks.*2 ≫= public_keys).
Proof.
  unfold networks. rewrite !addLocalNetwork_insert, !dom_insert_L.
  rewrite register_public_dom, dom_empty_L.
  unfold local_names, local_registrations. simpl.
  apply set_eq. intros k.
  rewrite !elem_of_union, !elem_of_singleton, elem_of_empty. tauto.
Qed.

(** X12. The keys of the registry are the six local names and, for each
    network of the table, its five suffixed keys; nothing else is ever
    registered. *)
Theorem networks_dom (env : environment) (PublicNetworks : list (string * string)) :
  dom (networks env PublicNetworks)
    = list_to_set local_names ∪ list_to_set (PublicNetworks.*2 ≫= public_keys).
Proof. apply networks_keys. Qed.

Lemma length_public_keys_bind (names : list string) :
  length (names ≫= public_keys) = (5 * length names)%nat.
Proof.
  induction names as [|n names IH]; [done|].
  rewrite bind_cons, length_app, IH. unfold public_keys at 1.
  rewrite length_fmap. simpl length. lia.
Qed.

(** X13. With distinct network names in the table, the registry has
    exactly six entries plus five for each network of the table. *)
Theorem networks_size (env : environment) (PublicNetworks : list (string * string)) :
  NoDup PublicNetworks.*2 →
  size (networks env PublicNetworks) = (6 + 5 * length PublicNetworks)%nat.
Proof.
  intros Hnd. rewrite <- size_dom, networks_keys, <- list_to_set_app_L.
  rewrite size_list_to_set.
  - rewrite length_app, length_public_keys_bind, length_fmap. reflexivity.
  - apply NoDup_app. split; [|split].
    + unfold local_names, local_registrations. simpl.
      repeat (apply NoDup_cons; split; [not_in_literals|]). apply NoDup_nil_2.
    + intros n Hn (name & Hk & _)%list_elem_of_bind.
      by apply (local_name_not_public n name).
    + apply NoDup_bind; [|intros; apply public_keys_NoDup | done].
      intros name1 name2 k _ _ H1 H2.
      destruct (decide (name1 = name2)) as [|Hne]; [done|].
      by destruct (public_keys_disjoint name1 name2 k Hne).
Qed.

Lemma networks_size_witness :
  size (networks ∅ [("1", "mainnet"); ("42", "kovan")]) = 16%nat.
Proof.
  apply (networks_size ∅ [("1", "mainnet"); ("42", "kovan")]).
  simpl. repeat (apply NoDup_cons; split; [not_in_literals|]). apply NoDup_nil_2.
Defined.

(** X15. As the source comments say, [develop] and [test] are exactly the
    same, and so are [ci] and [coverage], in every environment. *)
Theorem networks_twin_entries
    (env : environment) (PublicNetworks : list (string * string)) :
  networks env PublicNetworks !! "develop" = networks env PublicNetworks !! "test"
  ∧ networks env PublicNetworks !! "ci" = networks env PublicNetworks !! "coverage"
  ∧ is_Some (networks env PublicNetworks !! "develop")
  ∧ is_Some (networks env PublicNetworks !! "ci").
Proof.
  rewrite (networks_local_lookup env PublicNetworks "develop" None)
    by (unfold local_registrations; in_literals).
  rewrite (networks_local_lookup env PublicNetworks "test" None)
    by (unfold local_registrations; in_literals).
  rewrite (networks_local_lookup env PublicNetworks "ci" (Some ci_options))
    by (unfold local_registrations; in_literals).
  rewrite (networks_local_lookup env PublicNetworks "coverage" (Some ci_options))
    by (unfold local_registrations; in_literals).
  by eauto.
Qed.


(** ** Numerals in KEY_OFFSET and NUM_KEYS *)

Ltac parseInt_reads_minus :=
  lazymatch goal with
  | |- parseInt (String "-"%char ?s) = _ =>
      change (parseInt (String "-"%char s))
        with (match parse_digits 10 s None with
              | None => NaN
              | Some mathInt => round_to_double (-1 * mathInt)
              end);
      rewrite parse_digits_decimal_start;
      [f_equal; lia | done | simpl; by repeat (apply andb_true_iff; split)]
  end.

Lemma parseInt_minus_decimal s :
  s ≠ "" → all_decimal_digits s = true →
  parseInt (String "-"%char s) = round_to_double (- decimal_value s 0).
Proof.
  destruct s as [|a r]; [done|]. intros _ H.
  simpl in H. apply andb_true_iff in H as [Ha Hr].
  destruct a as [[] [] [] [] [] [] [] []]; try discriminate Ha;
    try parseInt_reads_minus.
  destruct r as [|b r']; [reflexivity|].
  simpl in Hr. apply andb_true_iff in Hr as [Hb Hr'].
  destruct b as [[] [] [] [] [] [] [] []]; try discriminate Hb;
    parseInt_reads_minus.
Qed.

(** X16. A numeral in the environment is taken as it is: NUM_KEYS made of
    at most fifteen decimal digits gives that number of keys, zero included
    (the string "0" is truthy, so the default 2 does not apply), and
    KEY_OFFSET made of a minus sign and at most fifteen decimal digits
    gives the negated value, which is negative as soon as a digit is not
    0. *)
Theorem numerals_taken_as_they_are (env : environment) (s : string) :
  decimal_numeral s = true →
  (env !! "NUM_KEYS" = Some s → numKeys env = Int (decimal_value s 0))
  ∧ (env !! "KEY_OFFSET" = Some (String "-"%char s) →
       keyOffset env = Int (- decimal_value s 0)
       ∧ (has_nonzero_digit s = true → - decimal_value s 0 < 0)).
Proof.
  intros (Hne & Hd & Hrange)%decimal_numeral_value. split.
  - intros H. unfold numKeys. rewrite H.
    destruct s as [|a r]; [done|]. simpl truthy. cbv iota.
    rewrite parseInt_decimal by done. apply round_to_double_exact. lia.
  - intros H. unfold keyOffset. rewrite H. simpl truthy. cbv iota.
    split.
    + rewrite parseInt_minus_decimal by done. apply round_to_double_exact. lia.
    + intros Hnz. pose proof (decimal_value_pos s 0 Hd (Z.le_refl 0) Hnz). lia.
Qed.

Lemma numerals_taken_as_they_are_witness :
  numKeys (<["NUM_KEYS" := "0"]> ∅) = Int 0
  ∧ keyOffset (<["KEY_OFFSET" := "-7"]> ∅) = Int (-7).
Proof.
  split.
  - apply (proj1 (numerals_taken_as_they_are (<["NUM_KEYS" := "0"]> ∅) "0"
                    eq_refl)).
    reflexivity.
  - apply (proj2 (numerals_taken_as_they_are (<["KEY_OFFSET" := "-7"]> ∅) "7"
                    eq_refl)).
    reflexivity.
Defined.


(** ** Directories of the configuration *)

Lemma plain_segment_inv s :
  plain_segment s = true →
  s ≠ "" ∧ String.eqb s "" = false ∧ String.eqb s "." = false
  ∧ String.eqb s ".." = false ∧ has_slash s = false.
Proof.
  unfold plain_segment. rewrite !andb_true_iff, !negb_true_iff.
  intros [[[H1 H2] H3] H4]. split; [by apply String.eqb_neq | done].
Qed.

Lemma segments_no_slash s : has_slash s = false → path.segments s = [s].
Proof.
  induction s as [|a r IH]; [done|]. simpl.
  intros [Ha Hr]%orb_false_iff. by rewrite Ha, IH.
Qed.

Lemma segments_app_slash s t :
  has_slash s = false →
  path.segments (s +:+ "/" +:+ t) = s :: path.segments t.
Proof.
  induction s as [|a r IH]; [done|].
  simpl has_slash. intros [Ha Hr]%orb_false_iff.
  rewrite string_app_cons. cbn [path.segments]. by rewrite Ha, IH.
Qed.

Lemma segments_concat l :
  l ≠ [] → Forall (λ s, plain_segment s = true) l →
  path.segments (path.concat_with "/" l) = l.
Proof.
  induction l as [|x [|y rest] IH]; [done| |]; intros _ Hl.
  - apply Forall_cons in Hl as [Hx _].
    apply plain_segment_inv in Hx as (_ & _ & _ & _ & Hx).
    by apply segments_no_slash.
  - apply Forall_cons in Hl as [Hx Hl].
    apply plain_segment_inv in Hx as (_ & _ & _ & _ & Hx).
    cbn [path.concat_with]. rewrite segments_app_slash by done.
    f_equal. by apply IH.
Qed.

Lemma normalizeString_plain allowAboveRoot l res :
  Forall (λ s, plain_segment s = true) l →
  path.normalizeString allowAboveRoot l res = (reverse res ++ l)%list.
Proof.
  revert res. induction l as [|seg rest IH]; intros res Hl.
  - simpl. by rewrite (right_id_L [] (++)).
  - apply Forall_cons in Hl as [Hseg Hl].
    apply plain_segment_inv in Hseg as (_ & H0 & H1 & H2 & _).
    cbn [path.normalizeString]. rewrite H0, H1, H2. simpl.
    rewrite IH by done. by rewrite reverse_cons, <- (assoc_L (++)).
Qed.

Lemma last_is_slash_app s t :
  t ≠ "" → path.last_is_slash (s +:+ t) = path.last_is_slash t.
Proof.
  intros Ht. induction s as [|a r IH]; [done|].
  rewrite string_app_cons. cbn [path.last_is_slash].
  destruct (r +:+ t) as [|b w] eqn:E; [|done].
  destruct r; [by rewrite string_app_nil in E | by rewrite string_app_cons in E].
Qed.

Lemma last_is_slash_no_slash s : has_slash s = false → path.last_is_slash s = false.
Proof.
  induction s as [|a r IH]; [done|]. simpl has_slash.
  intros [Ha Hr]%orb_false_iff. cbn [path.last_is_slash].
  destruct r; [done | by apply IH].
Qed.

Lemma concat_plain_nonempty l :
  l ≠ [] → Forall (λ s, plain_segment s = true) l → path.concat_with "/" l ≠ "".
Proof.
  destruct l as [|x rest]; [done|]. intros _ [Hx _]%Forall_cons.
  apply plain_segment_inv in Hx as (Hx & _).
  destruct x as [|a x]; [done|]. by destruct rest.
Qed.

Lemma last_is_slash_concat l :
  l ≠ [] → Forall (λ s, plain_segment s = true) l →
  path.last_is_slash (path.concat_with "/" l) = false.
Proof.
  induction l as [|x [|y rest] IH]; [done| |]; intros _ Hl.
  - apply Forall_cons in Hl as [Hx _].
    apply plain_segment_inv in Hx as (_ & _ & _ & _ & Hx).
    by apply last_is_slash_no_slash.
  - apply Forall_cons in Hl as [_ Hl]. cbn [path.concat_with].
    assert (Hne : path.concat_with "/" (y :: rest) ≠ "")
      by by apply concat_plain_nonempty.
    rewrite last_is_slash_app by (rewrite string_app_cons; discriminate).
    rewrite last_is_slash_app by done. by apply IH.
Qed.

(** A clean absolute path is its own normal form. *)
Lemma normalize_absolute_path l :
  l ≠ [] → Forall (λ s, plain_segment s = true) l →
  path.normalize (absolute_path l) = absolute_path l.
Proof.
  intros Hne Hl. unfold absolute_path, path.normalize.
  pose proof (concat_plain_nonempty l Hne Hl) as Hc.
  rewrite string_app_cons, string_app_nil.
  cbn [String.eqb Ascii.eqb path.segments Bool.eqb andb negb].
  cbn [path.normalizeString String.eqb orb].
  rewrite segments_concat, normalizeString_plain by done.
  rewrite reverse_nil, (left_id_L [] (++)).
  apply String.eqb_neq in Hc as ->.
  change (String "/" (path.concat_with "/" l))
    with ("/" +:+ path.concat_with "/" l).
  rewrite last_is_slash_app by by apply concat_plain_nonempty.
  by rewrite last_is_slash_concat.
Qed.

Lemma string_app_assoc (a b c : string) : (a +:+ b) +:+ c = a +:+ (b +:+ c).
Proof.
  induction a as [|x a IH]; [done|]. rewrite !string_app_cons. by rewrite IH.
Qed.

Lemma concat_with_app l k :
  l ≠ [] → k ≠ [] →
  path.concat_with "/" l +:+ "/" +:+ path.concat_with "/" k
    = path.concat_with "/" (l ++ k).
Proof.
  induction l as [|y [|z rest] IH]; [done| |]; intros _ Hk.
  - by destruct k.
  - change (path.concat_with "/" (y :: z :: rest))
      with (y +:+ "/" +:+ path.concat_with "/" (z :: rest)).
    change (path.concat_with "/" ((y :: z :: rest) ++ k))
      with (y +:+ "/" +:+ path.concat_with "/" ((z :: rest) ++ k)).
    rewrite <- IH by done. by rewrite !string_app_assoc.
Qed.

Lemma join_absolute_path l extra :
  l ≠ [] → Forall (λ s, plain_segment s = true) l →
  extra ≠ [] → Forall (λ s, plain_segment s = true) extra →
  path.join [absolute_path l; path.concat_with "/" extra]
    = absolute_path (l ++ extra).
Proof.
  intros Hl Hpl He Hpe. unfold path.join.
  rewrite filter_cons_True by (unfold absolute_path; by rewrite string_app_cons).
  rewrite filter_cons_True by by apply concat_plain_nonempty.
  rewrite filter_nil. cbn [path.concat_with].
  assert (absolute_path l +:+ "/" +:+ path.concat_with "/" extra
          = absolute_path (l ++ extra)) as ->.
  { unfold absolute_path. rewrite string_app_assoc. f_equal.
    by apply concat_with_app. }
  apply normalize_absolute_path; [by destruct l | by apply Forall_app].
Qed.

Lemma absolute_path_snoc l extra tail :
  l ≠ [] → extra ≠ [] →
  tail = "/" +:+ path.concat_with "/" extra →
  absolute_path (l ++ extra) = absolute_path l +:+ tail.
Proof.
  intros Hl He ->. unfold absolute_path.
  by rewrite <- concat_with_app, string_app_assoc.
Qed.

(** X17. For a context directory that is a clean absolute path (segments
    that are not empty, not "." or "..", and hold no separator), the three
    directories of the configuration are that path followed by
    /migrations, /contracts and /build/contracts. *)
Theorem directories_of_absolute_path
    (nets : gmap string object) (segs : list string) :
  segs ≠ [] → Forall (λ s, plain_segment s = true) segs →
  migrations_directory (getTruffleConfig nets (Some (absolute_path segs)))
    = absolute_path segs +:+ "/migrations"
  ∧ contracts_directory (getTruffleConfig nets (Some (absolute_path segs)))
    = absolute_path segs +:+ "/contracts"
  ∧ contracts_build_directory (getTruffleConfig nets (Some (absolute_path segs)))
    = absolute_path segs +:+ "/build/contracts".
Proof.
  intros Hne Hplain. unfold getTruffleConfig. simpl.
  split; [|split].
  - rewrite <- (absolute_path_snoc segs ["migrations"]) by done.
    by apply (join_absolute_path segs ["migrations"]); [| | |repeat constructor].
  - rewrite <- (absolute_path_snoc segs ["contracts"]) by done.
    by apply (join_absolute_path segs ["contracts"]); [| | |repeat constructor].
  - rewrite <- (absolute_path_snoc segs ["build"; "contracts"]) by done.
    by apply (join_absolute_path segs ["build"; "contracts"]);
      [| | |repeat constructor].
Qed.

Lemma directories_of_absolute_path_witness :
  migrations_directory (getTruffleConfig ∅ (Some "/srv/app")) = "/srv/app/migrations"
  ∧ contracts_directory (getTruffleConfig ∅ (Some "/srv/app")) = "/srv/app/contracts"
  ∧ contracts_build_directory (getTruffleConfig ∅ (Some "/srv/app"))
    = "/srv/app/build/contracts".
Proof.
  apply (directories_of_absolute_path ∅ ["srv"; "app"]);
    [discriminate | repeat constructor].
Defined.

(** ** Order of registration *)

(** X18. A local registration and a public one can be made in either order
    as long as the local name is not one of the five keys of the public
    network, which is the case of the six local names of the module for
    every network name; local registrations under different names commute
    as well. *)
Theorem registrations_commute
    (env : environment) (nets : gmap string object)
    (n : string) (customOptions : option object)
    (name : string) (networkId : value) :
  (n ∉ public_keys name →
     addLocalNetwork env (addPublicNetwork nets name networkId) n customOptions
       = addPublicNetwork (addLocalNetwork env nets n customOptions) name networkId)
  ∧ (n ∈ local_names → n ∉ public_keys name)
  ∧ (∀ n' customOptions', n ≠ n' →
       addLocalNetwork env (addLocalNetwork env nets n customOptions) n' customOptions'
         = addLocalNetwork env (addLocalNetwork env nets n' customOptions') n
             customOptions).
Proof.
  split; [|split].
  - intros Hn. rewrite !addLocalNetwork_insert.
    rewrite (addPublicNetwork_union nets), (addPublicNetwork_union (<[n:=_]> nets)).
    apply insert_union_r. apply not_elem_of_dom.
    rewrite addPublicNetwork_empty_dom. by rewrite elem_of_list_to_set.
  - apply local_name_not_public.
  - intros n' customOptions' Hne. rewrite !addLocalNetwork_insert.
    by apply insert_insert_ne.
Qed.

Lemma registrations_commute_witness :
  addLocalNetwork ∅ (addPublicNetwork ∅ "kovan" (VString "42")) "develop" None
  = addPublicNetwork (addLocalNetwork ∅ ∅ "develop" None) "kovan" (VString "42").
Proof.
  destruct (registrations_commute ∅ ∅ "develop" None "kovan" (VString "42"))
    as (Hcomm & Hlocal & _).
  apply Hcomm, Hlocal. unfold local_names, local_registrations. in_literals.
Defined.
